(** * GSSDA export core: the table composer and the PDF encoder

    A shallow embedding of [Util/pdf_table.py] and [Util/pdf_writer.py].

    Python [str] values are lists of Unicode code points, [bytes] values are
    lists of [Byte.byte]; [str.encode("latin-1")] is the only place where the
    two meet and it raises on a code point above 255.  Exceptions are carried
    by a small error monad; list indexing and item assignment raise
    [IndexError] out of range, as in Python. *)

From Stdlib Require Import Strings.String Strings.Ascii Strings.Byte.
From Stdlib Require Import List ZArith NArith Lia Bool Arith.
Import ListNotations.

Set Implicit Arguments.

(* ================================================================== *)
(** ** Python primitives used by the two modules *)
(* ================================================================== *)

Module Py.

(** A character is its code point, a [str] a list of them. *)
Abbreviation char := N (only parsing).
Abbreviation str := (list N) (only parsing).
Abbreviation bytes := (list byte) (only parsing).

(** String literals of the source: every character of a Rocq [string] is
    an 8-bit character, read as the code point of the same number. *)
Definition lit (s : String.string) : str :=
  List.map N_of_ascii (String.list_ascii_of_string s).
Arguments lit s%_string.

Definition nl : str := [10%N].          (* "\n" *)
Definition backslash : char := 92%N.
Definition lparen : char := 40%N.
Definition rparen : char := 41%N.
Definition space : char := 32%N.

(** *** Exceptions *)

Inductive exn := IndexError | UnicodeEncodeError.

Inductive result (A : Type) : Type :=
| Ok (a : A)
| Raise (e : exn).
Arguments Ok {A} a.
Arguments Raise {A} e.

Definition bind {A B} (m : result A) (k : A -> result B) : result B :=
  match m with
  | Ok a => k a
  | Raise e => Raise e
  end.

(** A [for] loop whose body may raise. *)
Fixpoint for_each {S X} (body : S -> X -> result S) (xs : list X) (s : S)
  : result S :=
  match xs with
  | [] => Ok s
  | x :: xs' => bind (body s x) (for_each body xs')
  end.

(** *** Lists *)

(** [l[i]] *)
Definition getitem {A} (l : list A) (i : nat) : result A :=
  match nth_error l i with
  | Some a => Ok a
  | None => Raise IndexError
  end.

(** [l[i] = v] *)
Definition setitem {A} (l : list A) (i : nat) (v : A) : result (list A) :=
  if i <? length l
  then Ok (firstn i l ++ v :: skipn (S i) l)
  else Raise IndexError.

(** [enumerate(l, start)] *)
Fixpoint enumerate {A} (start : nat) (l : list A) : list (nat * A) :=
  match l with
  | [] => []
  | a :: l' => (start, a) :: enumerate (S start) l'
  end.

(** *** Strings *)

(** [sep.join(parts)] *)
Fixpoint join (sep : str) (parts : list str) : str :=
  match parts with
  | [] => []
  | [p] => p
  | p :: rest => p ++ sep ++ join sep rest
  end.

(** [s.ljust(width)]: the text first, then spaces up to [width]. *)
Definition ljust (s : str) (width : nat) : str :=
  s ++ repeat space (width - length s).

(** [s.replace(old, new)] for a one-character [old]. *)
Definition replace_char (old : char) (new : str) (s : str) : str :=
  flat_map (fun c => if N.eqb c old then new else [c]) s.

(** Line boundaries of [str.splitlines]. *)
Definition is_linebreak (c : char) : bool :=
  ((10 <=? c) && (c <=? 13) || (28 <=? c) && (c <=? 30) || (c =? 133)
   || (c =? 8232) || (c =? 8233))%N.

(** White space of [str.strip] (the characters [str.isspace] accepts). *)
Definition is_space (c : char) : bool :=
  ((9 <=? c) && (c <=? 13) || (28 <=? c) && (c <=? 32) || (c =? 133)
   || (c =? 160) || (c =? 5760) || (8192 <=? c) && (c <=? 8202)
   || (c =? 8232) || (c =? 8233) || (c =? 8239) || (c =? 8287)
   || (c =? 12288))%N.

(** [s.splitlines()]: [cur] is the line being read.  A carriage return
    followed by a line feed is one boundary; a boundary at the very end
    opens no further line. *)
Fixpoint splitlines_from (cur : str) (s : str) : list str :=
  match s with
  | [] => match cur with [] => [] | _ => [cur] end
  | c :: rest =>
      if is_linebreak c then
        cur :: match rest with
               | c' :: rest' =>
                   if ((c =? 13) && (c' =? 10))%N
                   then splitlines_from [] rest'
                   else splitlines_from [] rest
               | [] => splitlines_from [] rest
               end
      else splitlines_from (cur ++ [c]) rest
  end.

Definition splitlines (s : str) : list str := splitlines_from [] s.

Fixpoint lstrip (s : str) : str :=
  match s with
  | c :: rest => if is_space c then lstrip rest else s
  | [] => []
  end.

Definition rstrip (s : str) : str := rev (lstrip (rev s)).

(** [s.strip()] *)
Definition strip (s : str) : str := rstrip (lstrip s).

(** *** Numbers as text *)

(** Decimal digits, most significant first; [fuel] bounds the number of
    digits. *)
Fixpoint digits (fuel : nat) (n : N) : str :=
  match fuel with
  | O => []
  | S f =>
      if (n <? 10)%N then [(48 + n)%N]
      else digits f (n / 10)%N ++ [(48 + n mod 10)%N]
  end.

(** [str(n)] for a natural number. *)
Definition str_of_N (n : N) : str := digits (S (N.to_nat (N.log2 n))) n.

Definition str_of_nat (n : nat) : str := str_of_N (N.of_nat n).

(** [str(z)] for an [int]. *)
Definition str_of_Z (z : Z) : str :=
  if (z <? 0)%Z then 45%N :: str_of_N (Z.abs_N z) else str_of_N (Z.abs_N z).

(** [f"{n:010d}"] for a natural number: zeros in front up to ten
    characters, no truncation. *)
Definition zfill10 (n : nat) : str :=
  let d := str_of_nat n in repeat 48%N (10 - length d) ++ d.

(** *** Bytes *)

(** [s.encode("latin-1")] *)
Fixpoint encode_latin1 (s : str) : result bytes :=
  match s with
  | [] => Ok []
  | c :: rest =>
      match Byte.of_N c with
      | Some b => bind (encode_latin1 rest) (fun bs => Ok (b :: bs))
      | None => Raise UnicodeEncodeError
      end
  end.

(** [b.decode("latin-1")], used to read the output back as text. *)
Definition decode_latin1 (b : bytes) : str := List.map Byte.to_N b.

(** [b.endswith(b"\n")] *)
Definition endswith_nl (b : bytes) : bool :=
  match rev b with
  | x0a :: _ => true
  | _ => false
  end.

End Py.

Arguments Py.lit s%_string.

Notation "x <- m ;; k" := (Py.bind m (fun x => k))
  (at level 61, m at next level, right associativity).
Notation "' pat <- m ;; k" := (Py.bind m (fun x => match x with pat => k end))
  (at level 61, pat pattern, m at next level, right associativity).

(* ================================================================== *)
(** ** Util/pdf_writer.py *)
(* ================================================================== *)

Module PdfWriter.
Import Py.

Definition PAGE_WIDTH : Z := 612.
Definition PAGE_HEIGHT : Z := 792.
Definition MARGIN : Z := 40.

(** A render item [(text, font_size)], a page of them, and the growable
    table of indirect objects: slot 0 is never used, a slot holds [None]
    until its body is known. *)
Definition item := (str * Z)%type.
Definition page := list item.
Definition objects := list (option str).

(** [_add_object]: append, return the new slot's index. *)
Definition _add_object (objs : objects) (content : option str)
  : objects * nat :=
  let objs := objs ++ [content] in
  (objs, length objs - 1).

(** [_escape]: three replacements, the backslash first. *)
Definition _escape (value : str) : str :=
  replace_char rparen [backslash; rparen]
    (replace_char lparen [backslash; lparen]
       (replace_char backslash [backslash; backslash] value)).

(** The text-show command of one item at cursor [y] (already lowered by
    the item's size). *)
Definition show_command (text : str) (size y : Z) : str :=
  lit "BT /F1 " ++ str_of_Z size ++ lit " Tf " ++ str_of_Z MARGIN
    ++ lit " " ++ str_of_Z (Z.max y MARGIN) ++ lit " Td ("
    ++ _escape text ++ lit ") Tj ET".

(** Body of the loop of [_build_content_stream] on the state
    [(y, commands)]. *)
Definition content_step (st : Z * list str) (it : item) : Z * list str :=
  let '(y, commands) := st in
  let '(text, size) := it in
  let y := (y - size)%Z in
  let commands := commands ++ [show_command text size y] in
  let y := (y - 4)%Z in
  (y, commands).

Definition _build_content_stream (items : page) : str :=
  let y := (PAGE_HEIGHT - MARGIN)%Z in
  let commands := snd (fold_left content_step items (y, [])) in
  join nl commands.

Definition font_body : str :=
  lit "<< /Type /Font /Subtype /Type1 /BaseFont /Courier >>".

Definition content_body (stream : str) : str :=
  lit "<< /Length " ++ str_of_nat (length stream) ++ lit " >>" ++ nl
    ++ lit "stream" ++ nl ++ stream ++ nl ++ lit "endstream".

Definition kids_text (page_refs : list (nat * nat)) : str :=
  join (lit " ")
    (List.map (fun ref => str_of_nat (fst ref) ++ lit " 0 R") page_refs).

Definition pages_body (count : nat) (kids : str) : str :=
  lit "<< /Type /Pages /Count " ++ str_of_nat count ++ lit " /Kids ["
    ++ kids ++ lit "] >>".

Definition page_body (parent content font : nat) : str :=
  lit "<< /Type /Page /Parent " ++ str_of_nat parent
    ++ lit " 0 R /MediaBox [0 0 " ++ str_of_Z PAGE_WIDTH ++ lit " "
    ++ str_of_Z PAGE_HEIGHT ++ lit "] /Contents " ++ str_of_nat content
    ++ lit " 0 R /Resources << /Font << /F1 " ++ str_of_nat font
    ++ lit " 0 R >> >> >>".

Definition catalog_body (pages_id : nat) : str :=
  lit "<< /Type /Catalog /Pages " ++ str_of_nat pages_id ++ lit " 0 R >>".

(** Body of the first loop of [render_pdf] on [(objects, page_refs)]. *)
Definition page_step (st : objects * list (nat * nat)) (pg : page)
  : objects * list (nat * nat) :=
  let '(objs, page_refs) := st in
  let stream := _build_content_stream pg in
  let content := content_body stream in
  let '(objs, content_id) := _add_object objs (Some content) in
  let '(objs, page_id) := _add_object objs None in
  (objs, page_refs ++ [(page_id, content_id)]).

(** Body of the second loop: fill one page dictionary. *)
Definition fill_step (pages_id font_id : nat) (objs : objects)
           (ref : nat * nat) : result objects :=
  let '(page_id, content_id) := ref in
  setitem objs page_id (Some (page_body pages_id content_id font_id)).

(** [render_pdf] up to its last line: the object table and the id of the
    catalog. *)
Definition render_objects (pages : list page) : result (objects * nat) :=
  let objs : objects := [None] in
  let '(objs, font_id) := _add_object objs (Some font_body) in
  let '(objs, page_refs) := fold_left page_step pages (objs, []) in
  let '(objs, pages_id) := _add_object objs None in
  let '(objs, catalog_id) := _add_object objs None in
  let kids := kids_text page_refs in
  objs <- setitem objs pages_id
            (Some (pages_body (length page_refs) kids)) ;;
  objs <- for_each (fill_step pages_id font_id) page_refs objs ;;
  objs <- setitem objs catalog_id (Some (catalog_body pages_id)) ;;
  Ok (objs, catalog_id).

(** *** Serialization *)

Definition pdf_header : bytes :=
  [x25; x50; x44; x46; x2d; x31; x2e; x34; x0a].     (* b"%PDF-1.4\n" *)

Definition endobj : bytes :=
  [x65; x6e; x64; x6f; x62; x6a; x0a].               (* b"endobj\n" *)

Definition free_entry : bytes :=                     (* b"0000000000 65535 f \n" *)
  [x30; x30; x30; x30; x30; x30; x30; x30; x30; x30; x20;
   x36; x35; x35; x33; x35; x20; x66; x20; x0a].

Definition obj_header (index : nat) : str :=
  str_of_nat index ++ lit " 0 obj" ++ nl.

Definition xref_header (total : nat) : str :=
  lit "xref" ++ nl ++ lit "0 " ++ str_of_nat total ++ nl.

Definition xref_entry (offset : nat) : str :=
  zfill10 offset ++ lit " 00000 n " ++ nl.

Definition trailer_text (total catalog_id xref_position : nat) : str :=
  lit "trailer" ++ nl ++ lit "<< /Size " ++ str_of_nat total
    ++ lit " /Root " ++ str_of_nat catalog_id ++ lit " 0 R >>" ++ nl
    ++ lit "startxref" ++ nl ++ str_of_nat xref_position ++ nl
    ++ lit "%%EOF".

(** [content or ""] *)
Definition or_empty (content : option str) : str :=
  match content with
  | Some c => c
  | None => []
  end.

(** Body of the object loop of [_build_pdf_bytes] on
    [(output, offsets)]. *)
Definition obj_step (st : bytes * list nat) (ic : nat * option str)
  : result (bytes * list nat) :=
  let '(output, offsets) := st in
  let '(index, content) := ic in
  let offsets := offsets ++ [length output] in
  hdr <- encode_latin1 (obj_header index) ;;
  let output := output ++ hdr in
  body <- encode_latin1 (or_empty content) ;;
  let output := output ++ body in
  let output := if endswith_nl body then output else output ++ [x0a] in
  let output := output ++ endobj in
  Ok (output, offsets).

(** Body of the offsets loop. *)
Definition xref_step (output : bytes) (offset : nat) : result bytes :=
  e <- encode_latin1 (xref_entry offset) ;;
  Ok (output ++ e).

Definition _build_pdf_bytes (objs : objects) (catalog_id : nat)
  : result bytes :=
  let output := pdf_header in
  '(output, offsets) <- for_each obj_step (enumerate 1 (tl objs))
                          (output, []) ;;
  let xref_position := length output in
  let total := length objs in
  h <- encode_latin1 (xref_header total) ;;
  let output := output ++ h in
  let output := output ++ free_entry in
  output <- for_each xref_step offsets output ;;
  t <- encode_latin1 (trailer_text total catalog_id xref_position) ;;
  Ok (output ++ t).

Definition render_pdf (pages : list page) : result bytes :=
  '(objs, catalog_id) <- render_objects pages ;;
  _build_pdf_bytes objs catalog_id.

End PdfWriter.

(* ================================================================== *)
(** ** Util/pdf_table.py *)
(* ================================================================== *)

Module PdfTable.
Import Py PdfWriter.

(** A cell value: [None] or a string. *)
Definition cell := option str.

Definition _split_cell (value : cell) : list str :=
  let text := match value with None => [] | Some s => s end in
  let parts := match splitlines text with [] => [[]] | ps => ps end in
  List.map strip parts.

(** The three nested loops of [_column_widths], innermost first. *)
Definition widths_part_step (index : nat) (widths : list nat) (part : str)
  : result (list nat) :=
  w <- getitem widths index ;;
  setitem widths index (Nat.max w (length part)).

Definition widths_cell_step (widths : list nat) (ip : nat * list str)
  : result (list nat) :=
  for_each (widths_part_step (fst ip)) (snd ip) widths.

Definition widths_row_step (widths : list nat) (row : list (list str))
  : result (list nat) :=
  for_each widths_cell_step (enumerate 0 row) widths.

Definition _column_widths (headers : list str) (rows : list (list (list str)))
  : result (list nat) :=
  let widths := List.map (@length char) headers in
  widths <- for_each widths_row_step rows widths ;;
  Ok (List.map (fun width => width + 2) widths).

(** A list comprehension whose element expression may raise. *)
Fixpoint map_result {A B} (f : A -> result B) (l : list A)
  : result (list B) :=
  match l with
  | [] => Ok []
  | a :: l' => b <- f a ;; bs <- map_result f l' ;; Ok (b :: bs)
  end.

Definition _format_row (cells : list str) (widths : list nat) : result str :=
  padded <- map_result
              (fun ic => w <- getitem widths (fst ic) ;; Ok (ljust (snd ic) w))
              (enumerate 0 cells) ;;
  Ok (join (lit " | ") padded).

Definition _separator (widths : list nat) : str :=
  join (lit "-+-") (List.map (fun width => repeat 45%N width) widths).

(** [max(len(parts) for parts in row_segments) if row_segments else 1] *)
Definition row_height (row_segments : list (list str)) : nat :=
  match row_segments with
  | [] => 1
  | _ => list_max (List.map (@length str) row_segments)
  end.

(** [[parts[index] if index < len(parts) else "" for parts in row_segments]] *)
Definition line_cells (row_segments : list (list str)) (index : nat)
  : list str :=
  List.map (fun parts => if index <? length parts then nth index parts []
                         else []) row_segments.

(** Body of the row loop of [_build_table_lines]. *)
Definition row_step (col_widths : list nat) (separator : str)
           (lines : list str) (row_segments : list (list str))
  : result (list str) :=
  let height := row_height row_segments in
  lines <- for_each
             (fun lines index =>
                l <- _format_row (line_cells row_segments index) col_widths ;;
                Ok (lines ++ [l]))
             (seq 0 height) lines ;;
  Ok (lines ++ [separator]).

Definition _build_table_lines (headers : list str) (rows : list (list cell))
  : result (list str) :=
  let splits := List.map (List.map _split_cell) rows in
  col_widths <- _column_widths headers splits ;;
  header_line <- _format_row headers col_widths ;;
  let separator := _separator col_widths in
  let lines := [header_line; separator] in
  lines <- for_each (row_step col_widths separator) splits lines ;;
  let lines := match splits with
               | [] => lines ++ [separator]
               | _ => lines
               end in
  Ok lines.

Definition usable_height : Z := (PAGE_HEIGHT - 2 * MARGIN)%Z.

(** [if current and used + step > usable_height] *)
Definition page_full (current : page) (used step : Z) : bool :=
  match current with
  | [] => false
  | _ => (used + step >? usable_height)%Z
  end.

(** Body of the loop of [_paginate] on [(pages, current, used)]. *)
Definition paginate_step (st : list page * page * Z) (it : item)
  : list page * page * Z :=
  let '(pages, current, used) := st in
  let '(text, size) := it in
  let step := (size + 4)%Z in
  let '(pages, current, used) :=
    if page_full current used step
    then (pages ++ [current], [], 0%Z)
    else (pages, current, used) in
  (pages, current ++ [(text, size)], (used + step)%Z).

Definition _paginate (items : list item) : list page :=
  let '(pages, current, _) :=
    fold_left paginate_step items ([], [], 0%Z) in
  let current := match current with
                 | [] => current ++ [([], 10%Z)]
                 | _ => current
                 end in
  pages ++ [current].

(** The render items of a table: title, blank line, body lines. *)
Definition table_items (title : str) (lines : list str) : list item :=
  [(title, 16%Z); ([], 12%Z)] ++ List.map (fun line => (line, 10%Z)) lines.

Definition build_pdf_table (title : str) (headers : list str)
           (rows : list (list cell)) : result bytes :=
  lines <- _build_table_lines headers rows ;;
  let items := table_items title lines in
  let pages := _paginate items in
  render_pdf pages.

End PdfTable.

Import Py PdfWriter PdfTable.

(* ================================================================== *)
(** ** Specification-level vocabulary *)
(* ================================================================== *)

(** Every character fits one latin-1 byte. *)
Definition latin1 (s : str) : Prop := Forall (fun c => (c < 256)%N) s.

(** [pat] is a substring of [s] beginning at position [pos]. *)
Definition occurs_at (pat : str) (pos : nat) (s : str) : Prop :=
  firstn (length pat) (skipn pos s) = pat.

(** [s.endswith("\n")] on text. *)
Definition ends_nl (s : str) : bool :=
  match rev s with
  | c :: _ => (c =? 10)%N
  | [] => false
  end.

(** The text of one serialized indirect object. *)
Definition obj_text (ic : nat * option str) : str :=
  obj_header (fst ic) ++ or_empty (snd ic)
    ++ (if ends_nl (or_empty (snd ic)) then [] else nl)
    ++ decode_latin1 endobj.

(** Byte offsets of consecutive objects laid out from position [pos]. *)
Fixpoint offsets_from (pos : nat) (l : list (nat * option str)) : list nat :=
  match l with
  | [] => []
  | ic :: l' => pos :: offsets_from (pos + length (obj_text ic)) l'
  end.

(** The object section followed by the cross-reference section and the
    trailer, as text. *)
Definition pdf_text (objs : objects) (catalog_id : nat) : str :=
  let body := decode_latin1 pdf_header
                ++ concat (List.map obj_text (enumerate 1 (tl objs))) in
  body ++ xref_header (length objs) ++ decode_latin1 free_entry
    ++ concat (List.map xref_entry (offsets_from 9 (enumerate 1 (tl objs))))
    ++ trailer_text (length objs) catalog_id (length body).

(** Ids of the page dictionary and the content stream of page [k]
    (counting pages from 0). *)
Definition page_ref (k : nat) : nat * nat := (2 * k + 3, 2 * k + 2).

Definition unfilled_page (pg : page) : list (option str) :=
  [Some (content_body (_build_content_stream pg)); None].

Definition filled_page (pages_id : nat) (kp : nat * page) : list (option str) :=
  [Some (content_body (_build_content_stream (snd kp)));
   Some (page_body pages_id (2 * fst kp + 2) 1)].

(** The finished table for a list of pages: slot 0, the font, two objects
    per page, the page tree, the catalog. *)
Definition object_table (pages : list page) : objects :=
  let P := length pages in
  [None; Some font_body]
    ++ flat_map (filled_page (2 * P + 2)) (enumerate 0 pages)
    ++ [Some (pages_body P (kids_text (List.map page_ref (seq 0 P))));
        Some (catalog_body (2 * P + 2))].

(** The cells that are present, each left-justified in its column. *)
Fixpoint pad_cells (cells : list str) (widths : list nat) : list str :=
  match cells, widths with
  | c :: cs, w :: ws => ljust c w :: pad_cells cs ws
  | _, _ => []
  end.

Definition format_cell (widths : list nat) (ic : nat * str) : result str :=
  w <- getitem widths (fst ic) ;; Ok (ljust (snd ic) w).

(** Longest wrapped part of a cell. *)
Definition parts_max (parts : list str) : nat :=
  list_max (List.map (@length char) parts).

(** One row's effect on the running widths. *)
Fixpoint widen (ws : list nat) (row : list (list str)) : list nat :=
  match ws, row with
  | w :: ws', parts :: row' => Nat.max w (parts_max parts) :: widen ws' row'
  | _, _ => ws
  end.

Definition final_widths (headers : list str) (splits : list (list (list str)))
  : list nat :=
  List.map (fun width => width + 2)
    (fold_left widen splits (List.map (@length char) headers)).

Definition row_lines (widths : list nat) (segs : list (list str)) : list str :=
  List.map (fun index => join (lit " | ") (pad_cells (line_cells segs index) widths))
    (seq 0 (row_height segs)).

Definition table_lines (headers : list str) (splits : list (list (list str)))
  : list str :=
  let widths := final_widths headers splits in
  [join (lit " | ") (pad_cells headers widths); _separator widths]
    ++ flat_map (fun segs => row_lines widths segs ++ [_separator widths]) splits
    ++ match splits with
       | [] => [_separator widths]
       | _ => []
       end.

Definition split_rows (rows : list (list cell)) : list (list (list str)) :=
  List.map (List.map _split_cell) rows.

(** The text of the spec: a greedy left-to-right pass that carries the
    current page and the height used on it. *)
Fixpoint greedy (usable : Z) (current : page) (used : Z) (items : list item)
  : list page :=
  match items with
  | [] => [current]
  | (text, size) :: rest =>
      let step := (size + 4)%Z in
      if match current with [] => false | _ => (used + step >? usable)%Z end
      then current :: greedy usable [(text, size)] step rest
      else greedy usable (current ++ [(text, size)]) (used + step)%Z rest
  end.

Definition paginate_spec (pageHeight margin : Z) (items : list item)
  : list page :=
  match items with
  | [] => [[([], 10%Z)]]
  | _ => greedy (pageHeight - 2 * margin)%Z [] 0%Z items
  end.

(** Last lines of [_paginate] on the loop's final state. *)
Definition paginate_finish (st : list page * page * Z) : list page :=
  let '(pages, current, _) := st in
  pages ++ [match current with
            | [] => current ++ [([], 10%Z)]
            | _ => current
            end].

Definition latin1_item (it : item) : Prop := latin1 (fst it).
Definition latin1_cell (c : cell) : Prop :=
  match c with
  | Some s => latin1 s
  | None => True
  end.

Definition latin1_object (c : option str) : Prop := latin1 (or_empty c).

(** The width of column [j] as the data model defines it: the longest of the
    header and of every wrapped part in that column, plus the padding of 2.
    A row that has no cell [j] contributes nothing. *)
Definition column_width (headers : list str) (splits : list (list (list str)))
           (j : nat) : nat :=
  Nat.max (length (nth j headers []))
          (list_max (List.map (fun segs => parts_max (nth j segs [])) splits))
  + 2.

(** Every cell is no longer than the width of its column. *)
Fixpoint fits (cells : list str) (widths : list nat) : Prop :=
  match cells, widths with
  | [], _ => True
  | c :: cs, w :: ws => length c <= w /\ fits cs ws
  | _ :: _, [] => False
  end.

(** What one character becomes in a single left-to-right pass. *)
Definition escape_char (c : char) : str :=
  if (c =? backslash)%N then [backslash; backslash]
  else if (c =? lparen)%N then [backslash; lparen]
  else if (c =? rparen)%N then [backslash; rparen]
  else [c].

(** The cell of the example, [Name (Jr.)\], and its escaped form
    [Name \(Jr.\)\\]. *)
Definition jr_cell : str :=
  lit "Name " ++ [lparen] ++ lit "Jr." ++ [rparen; backslash].

Definition jr_escaped : str :=
  lit "Name " ++ [backslash; lparen] ++ lit "Jr."
    ++ [backslash; rparen; backslash; backslash].

(** The table of the empty-table example. *)
Definition ab_headers : list str := [lit "A"; lit "B"].
Definition ab_lines : list str :=
  [lit "A   | B  "; lit "----+----"; lit "----+----"].

(** The events view: its headers, and a row for an event without callers,
    whose third cell is the em dash the row formatter writes. *)
Definition events_headers : list str :=
  [lit "ID"; lit "Room"; lit "Callers/Cuers"; lit "Start"; lit "End";
   lit "Dance Types"].
Definition em_dash : str := [8212%N].
Definition events_row : list cell :=
  [Some (lit "1"); Some (lit "Hall A"); Some em_dash;
   Some (lit "2025-01-01 10:00"); Some (lit "2025-01-01 11:00");
   Some (lit "Plus")].

(** The table of the column-width example. *)
Definition id_name_headers : list str := [lit "ID"; lit "Name"].
Definition id_name_rows : list (list cell) :=
  [[Some (lit "1"); Some (lit "Alice")];
   [Some (lit "2"); Some (lit "Bob and a very long name")]].

(** The number a string of decimal digits denotes. *)
Definition decimal_value (s : str) : N :=
  fold_left (fun acc c => (10 * acc + (c - 48))%N) s 0%N.

(** A decimal digit. *)
Definition digit (c : char) : Prop := (48 <= c <= 57)%N.

(** The cross-reference property of a document [out] made from [pages].
    The output is the object section [body] followed, as text, by the line
    [xref], the line [0 <number of slots>], the free entry, one entry per
    recorded offset, and the trailer with [/Size], [/Root] and, after
    [startxref], the decimal number of the position where [xref] begins.
    The entry of the [i]-th recorded offset is ten decimal digits that
    denote the offset, followed by [ 00000 n ] and a newline, twenty
    characters in all, and at that offset the text [<i+1> 0 obj] begins. *)
Definition xref_integrity (pages : list page) (out : list byte) : Prop :=
  exists objs catalog_id body offsets entries,
    render_objects pages = Ok (objs, catalog_id)
    /\ for_each obj_step (enumerate 1 (tl objs)) (pdf_header, [])
       = Ok (body, offsets)
    /\ decode_latin1 out
       = decode_latin1 body
           ++ (lit "xref" ++ nl ++ lit "0 " ++ str_of_nat (length objs) ++ nl)
           ++ (lit "0000000000 65535 f " ++ nl)
           ++ concat entries
           ++ (lit "trailer" ++ nl ++ lit "<< /Size " ++ str_of_nat (length objs)
                 ++ lit " /Root " ++ str_of_nat catalog_id ++ lit " 0 R >>" ++ nl
                 ++ lit "startxref" ++ nl ++ str_of_nat (length body) ++ nl
                 ++ lit "%%EOF")
    /\ decimal_value (str_of_nat (length body)) = N.of_nat (length body)
    /\ occurs_at (lit "xref") (length body) (decode_latin1 out)
    /\ length offsets = length objs - 1
    /\ length entries = length offsets
    /\ (forall i off,
          nth_error offsets i = Some off ->
          exists d,
            nth_error entries i = Some (d ++ lit " 00000 n " ++ nl)
            /\ length (d ++ lit " 00000 n " ++ nl) = 20
            /\ length d = 10
            /\ Forall digit d
            /\ decimal_value d = N.of_nat off
            /\ occurs_at (str_of_nat (S i) ++ lit " 0 obj") off (decode_latin1 out)).

(** A page whose only line is ten thousand million letters long. *)
Definition long_text : str := repeat 65%N (N.to_nat 10000000000%N).
Definition long_pages : list page := [[(long_text, 10%Z)]].

(* ------------------------------------------------------------------ *)
(** *** Vocabulary of the further properties *)

(** The show commands of [items] when the cursor stands at [y]. *)
Fixpoint commands_from (y : Z) (items : list item) : list str :=
  match items with
  | [] => []
  | (text, size) :: rest =>
      show_command text size (y - size) :: commands_from (y - size - 4) rest
  end.

(** The height a list of items takes: size plus 4 for each. *)
Definition steps (items : list item) : Z :=
  fold_right (fun it acc => (snd it + 4 + acc)%Z) 0%Z items.

(** A page respects the budget: it holds a single item, or its items take
    no more than the usable height. *)
Definition page_fits (pg : page) : Prop :=
  length pg = 1 \/ (steps pg <= usable_height)%Z.

(** No page break could have been avoided: the first item of each page
    after the first did not fit on the page before it. *)
Fixpoint tight (pages : list page) : Prop :=
  match pages with
  | [] => True
  | p :: rest =>
      match rest with
      | [] => True
      | q :: _ =>
          match q with
          | [] => False
          | it :: _ => (steps p + (snd it + 4) > usable_height)%Z
          end /\ tight rest
      end
  end.

(** [l] cut into consecutive pieces of [n] elements, the last one shorter
    when [n] does not divide the length. *)
Fixpoint chunks_fuel {A} (fuel n : nat) (l : list A) : list (list A) :=
  match fuel with
  | O => []
  | S f =>
      match l with
      | [] => []
      | _ => firstn n l :: chunks_fuel f n (skipn n l)
      end
  end.

Definition chunks {A} (n : nat) (l : list A) : list (list A) :=
  chunks_fuel (length l) n l.

(** Reading an escaped text back: a backslash stands for the character
    after it. *)
Fixpoint unescape (s : str) : str :=
  match s with
  | [] => []
  | c :: rest =>
      if (c =? backslash)%N then
        match rest with
        | d :: rest' => d :: unescape rest'
        | [] => [c]
        end
      else c :: unescape rest
  end.

(** How a PDF reader finds the end of a literal string, started after its
    opening parenthesis: a backslash hides the character after it, a bare
    opening parenthesis opens a nested pair, and the bare closing
    parenthesis met outside every nested pair ends the string.  The result
    is the position of that parenthesis. *)
Fixpoint literal_end (depth : nat) (s : str) : option nat :=
  match s with
  | [] => None
  | c :: rest =>
      if (c =? backslash)%N then
        match rest with
        | _ :: rest' => option_map (fun n => S (S n)) (literal_end depth rest')
        | [] => None
        end
      else if (c =? lparen)%N then option_map S (literal_end (S depth) rest)
      else if (c =? rparen)%N then
        match depth with
        | O => Some 0
        | S d => option_map S (literal_end d rest)
        end
      else option_map S (literal_end depth rest)
  end.

(** A line as [_split_cell] leaves it: no line boundary inside, no white
    space at either end. *)
Definition clean_line (s : str) : bool :=
  forallb (fun c => negb (is_linebreak c)) s
  && match s with
     | c :: _ => negb (is_space c)
     | [] => true
     end
  && match rev s with
     | c :: _ => negb (is_space c)
     | [] => true
     end.

(* ================================================================== *)
(** ** Services/export_fetch.py, Services/export_rows.py,
       Services/export_data.py, Services/export.py: from records to the
       table that is exported *)
(* ================================================================== *)

Module ExportRows.

Section Foreign.

(** What the standard library gives: the [datetime] values the services put
    in the records, Python's [str] of one, and
    [datetime.fromisoformat(s).strftime("%Y-%m-%d %H:%M")], which is [None]
    when [fromisoformat] raises [ValueError]. *)
Variable datetime : Type.
Variable str_of_datetime : datetime -> str.
Variable iso_minutes : str -> option str.

(** A time in a record: a string or a [datetime]. *)
Inductive timeval :=
| TStr (s : str)
| TDatetime (d : datetime).

Definition str_of_timeval (v : timeval) : str :=
  match v with
  | TStr s => s
  | TDatetime d => str_of_datetime d
  end.

(** The records as the services build them: every key is present, the
    optional values may be [None]. *)
Record room_desc := {
  d_description : option str;
  d_start_time : option timeval;
  d_end_time : option timeval
}.

Record room_item := {
  r_id : Z;
  r_room_number : str;
  r_static : bool;
  r_descriptions : list room_desc
}.

Record caller_item := {
  c_id : Z;
  c_first_name : str;
  c_last_name : str;
  c_mc : bool;
  c_dance_types : list str
}.

Record event_item := {
  e_id : Z;
  e_room_id : Z;
  e_caller_cuer_ids : list Z;
  e_start : option timeval;
  e_end : option timeval;
  e_dance_types : list str
}.

Record mc_item := {
  m_id : Z;
  m_room_id : Z;
  m_caller_cuer_id : Z;
  m_start : option timeval;
  m_end : option timeval
}.

(** [dict.get(key, default)] on a dictionary from ids to labels. *)
Definition get_label (labels : Z -> option str) (key : Z) (default : str) : str :=
  match labels key with
  | Some label => label
  | None => default
  end.

(** [s.strip(chars)] *)
Fixpoint lstrip_chars (chars : str) (s : str) : str :=
  match s with
  | c :: rest => if existsb (N.eqb c) chars then lstrip_chars chars rest else s
  | [] => []
  end.

Definition strip_chars (chars : str) (s : str) : str :=
  rev (lstrip_chars chars (rev (lstrip_chars chars s))).

Definition en_dash : char := 8211%N.
Definition colon : char := 58%N.

(** [format_datetime] *)
Definition format_datetime (value : option timeval) : str :=
  match value with
  | None => []
  | Some (TStr []) => []
  | Some v =>
      match iso_minutes (str_of_timeval v) with
      | Some formatted => formatted
      | None => str_of_timeval v
      end
  end.

Definition nonempty (s : str) : bool :=
  match s with
  | [] => false
  | _ => true
  end.

(** [format_description] *)
Definition format_description (start end_ : option timeval) (text : option str)
  : str :=
  let start_label := format_datetime start in
  let end_label := format_datetime end_ in
  let label := match text with Some t => t | None => [] end in
  if nonempty start_label || nonempty end_label then
    let range_part :=
      strip_chars [space; en_dash]
        (start_label ++ [space; en_dash; space] ++ end_label) in
    strip_chars [space; colon] (range_part ++ [colon; space] ++ label)
  else label.

(** [filter(None, lines)]: the lines that are neither [None] nor empty. *)
Fixpoint filter_truthy (lines : list (option str)) : list str :=
  match lines with
  | [] => []
  | Some (c :: s) :: rest => (c :: s) :: filter_truthy rest
  | _ :: rest => filter_truthy rest
  end.

Definition yes_no (flag : bool) : str :=
  if flag then lit "Yes" else lit "No".

(** [room_row] *)
Definition room_row (item : room_item) : list cell :=
  let descriptions := r_descriptions item in
  let desc_lines :=
    if r_static item then List.map d_description descriptions
    else List.map (fun desc =>
                     Some (format_description (d_start_time desc) (d_end_time desc)
                             (d_description desc)))
           descriptions in
  let description_text := join nl (filter_truthy desc_lines) in
  [Some (str_of_Z (r_id item));
   Some (r_room_number item);
   Some (yes_no (r_static item));
   Some description_text].

(** [caller_row] *)
Definition caller_row (item : caller_item) : list cell :=
  let dances := c_dance_types item in
  [Some (str_of_Z (c_id item));
   Some (c_first_name item);
   Some (c_last_name item);
   Some (yes_no (c_mc item));
   Some (join (lit ", ") dances)].

(** [event_row] *)
Definition event_row (item : event_item) (rooms callers : Z -> option str)
  : list cell :=
  let caller_ids := e_caller_cuer_ids item in
  let caller_labels :=
    List.map (fun cid => get_label callers cid (lit "#" ++ str_of_Z cid)) caller_ids in
  let room_label := get_label rooms (e_room_id item) (str_of_Z (e_room_id item)) in
  [Some (str_of_Z (e_id item));
   Some room_label;
   Some (match caller_labels with
         | [] => em_dash
         | _ => join (lit ", ") caller_labels
         end);
   Some (format_datetime (e_start item));
   Some (format_datetime (e_end item));
   Some (join (lit ", ") (e_dance_types item))].

(** [mc_row] *)
Definition mc_row (item : mc_item) (rooms callers : Z -> option str)
  : list cell :=
  let room_label := get_label rooms (m_room_id item) (str_of_Z (m_room_id item)) in
  let caller_label :=
    get_label callers (m_caller_cuer_id item) (str_of_Z (m_caller_cuer_id item)) in
  [Some (str_of_Z (m_id item));
   Some room_label;
   Some caller_label;
   Some (format_datetime (m_start item));
   Some (format_datetime (m_end item))].

(** The four branches of [collect_table], each on the records that
    [fetch_all] returned for its view: title, headers, rows. *)
Definition table := (str * list str * list (list cell))%type.

Definition collect_rooms (records : list room_item) : table :=
  (lit "Rooms",
   [lit "ID"; lit "Room Number"; lit "Static"; lit "Descriptions"],
   List.map room_row records).

Definition collect_caller_cuers (records : list caller_item) : table :=
  (lit "Caller & Cuer",
   [lit "ID"; lit "First Name"; lit "Last Name"; lit "MC"; lit "Dance Types"],
   List.map caller_row records).

Definition collect_events (records : list event_item)
           (rooms callers : Z -> option str) : table :=
  (lit "Events",
   [lit "ID"; lit "Room"; lit "Callers/Cuers"; lit "Start"; lit "End";
    lit "Dance Types"],
   List.map (fun item => event_row item rooms callers) records).

Definition collect_mcs (records : list mc_item)
           (rooms callers : Z -> option str) : table :=
  (lit "MC Assignments",
   [lit "ID"; lit "Room"; lit "Caller"; lit "Start"; lit "End"],
   List.map (fun item => mc_row item rooms callers) records).

End Foreign.

(** The line of [export_view] that makes the document. *)
Definition export_pdf (t : str * list str * list (list cell)) : result (list byte) :=
  let '(title, headers, rows) := t in
  build_pdf_table title headers rows.

End ExportRows.

(** Every row of a table has as many cells as the table has headers. *)
Definition rectangular (t : str * list str * list (list cell)) : Prop :=
  let '(_, headers, rows) := t in
  Forall (fun row => length row = length headers) rows.

(* ================================================================== *)
(** ** The embedding on small inputs *)
(* ================================================================== *)

Example splitlines_crlf :
  splitlines (lit "a" ++ [13; 10]%N ++ lit "b" ++ nl) = [lit "a"; lit "b"].
Proof. reflexivity. Qed.

Example splitlines_blank_line :
  splitlines (lit "a" ++ nl ++ nl ++ lit "b") = [lit "a"; []; lit "b"].
Proof. reflexivity. Qed.

Example split_cell_none : _split_cell None = [[]].
Proof. reflexivity. Qed.

Example split_cell_trims :
  _split_cell (Some (lit "  first " ++ nl ++ lit " second")) = [lit "first"; lit "second"].
Proof. reflexivity. Qed.

Example str_of_Z_negative : str_of_Z (-45) = lit "-45".
Proof. reflexivity. Qed.

Example str_of_nat_zero : str_of_nat 0 = lit "0".
Proof. reflexivity. Qed.

Example zfill10_small : zfill10 547 = lit "0000000547".
Proof. reflexivity. Qed.

Example ljust_pads_right : ljust (lit "ab") 5 = lit "ab   ".
Proof. reflexivity. Qed.

Example ljust_keeps_long : ljust (lit "abcdef") 3 = lit "abcdef".
Proof. reflexivity. Qed.

Example separator_two : _separator [3; 4] = lit "----+-----".
Proof. reflexivity. Qed.

Example content_stream_two_items :
  _build_content_stream [(lit "T", 16%Z); ([], 12%Z)]
  = lit "BT /F1 16 Tf 40 736 Td (T) Tj ET" ++ nl
      ++ lit "BT /F1 12 Tf 40 720 Td () Tj ET".
Proof. reflexivity. Qed.

Example content_stream_clamps_cursor :
  _build_content_stream [(lit "low", 800%Z)]
  = lit "BT /F1 800 Tf 40 40 Td (low) Tj ET".
Proof. reflexivity. Qed.

Example column_widths_extra_cell :
  _column_widths [lit "A"] [[[lit "x"]; [lit "y"]]] = Raise IndexError.
Proof. reflexivity. Qed.

Example render_no_pages :
  option_map decode_latin1
    (match render_pdf [] with Ok out => Some out | Raise _ => None end)
  = Some (lit "%PDF-1.4" ++ nl
          ++ lit "1 0 obj" ++ nl
          ++ lit "<< /Type /Font /Subtype /Type1 /BaseFont /Courier >>" ++ nl
          ++ lit "endobj" ++ nl
          ++ lit "2 0 obj" ++ nl
          ++ lit "<< /Type /Pages /Count 0 /Kids [] >>" ++ nl
          ++ lit "endobj" ++ nl
          ++ lit "3 0 obj" ++ nl
          ++ lit "<< /Type /Catalog /Pages 2 0 R >>" ++ nl
          ++ lit "endobj" ++ nl
          ++ lit "xref" ++ nl
          ++ lit "0 4" ++ nl
          ++ lit "0000000000 65535 f " ++ nl
          ++ lit "0000000009 00000 n " ++ nl
          ++ lit "0000000077 00000 n " ++ nl
          ++ lit "0000000129 00000 n " ++ nl
          ++ lit "trailer" ++ nl
          ++ lit "<< /Size 4 /Root 3 0 R >>" ++ nl
          ++ lit "startxref" ++ nl
          ++ lit "178" ++ nl
          ++ lit "%%EOF").
Proof. vm_compute. reflexivity. Qed.

(* ================================================================== *)
(** ** Basic facts: the error monad, text and bytes *)
(* ================================================================== *)

Lemma bind_Ok A B (m : result A) (k : A -> result B) b :
  bind m k = Ok b -> exists a, m = Ok a /\ k a = Ok b.
Proof. destruct m as [a|e]; simpl; [eauto | discriminate]. Qed.

Ltac inv_bind H :=
  let a := fresh "a" in
  let Ha := fresh "E" in
  apply bind_Ok in H; destruct H as (a & Ha & H).

Lemma latin1_app s t : latin1 (s ++ t) <-> latin1 s /\ latin1 t.
Proof. apply Forall_app. Qed.

Lemma latin1_lit s : latin1 (lit s).
Proof.
  unfold latin1, lit. apply Forall_forall. intros c Hc.
  apply in_map_iff in Hc. destruct Hc as (a & <- & _).
  destruct a as [[] [] [] [] [] [] [] []]; vm_compute; reflexivity.
Qed.

Lemma latin1_repeat c n : (c < 256)%N -> latin1 (repeat c n).
Proof. intros Hc. apply Forall_forall. intros x Hx. apply repeat_spec in Hx. now subst. Qed.

Lemma latin1_digits fuel n : latin1 (digits fuel n).
Proof.
  revert n. induction fuel as [|f IH]; intros n; cbn [digits]; [constructor|].
  destruct (N.ltb_spec n 10).
  - repeat constructor. lia.
  - apply latin1_app. split; [apply IH|]. repeat constructor.
    pose proof (N.mod_lt n 10). lia.
Qed.

Lemma latin1_str_of_nat n : latin1 (str_of_nat n).
Proof. apply latin1_digits. Qed.

Lemma latin1_str_of_Z z : latin1 (str_of_Z z).
Proof.
  unfold str_of_Z. destruct (z <? 0)%Z.
  - constructor; [reflexivity | apply latin1_digits].
  - apply latin1_digits.
Qed.

Lemma latin1_join sep parts :
  latin1 sep -> Forall latin1 parts -> latin1 (join sep parts).
Proof.
  intros Hs Hp. induction Hp as [|p rest Hp Hrest IH]; [constructor|].
  simpl. destruct rest as [|q rest]; [assumption|].
  apply latin1_app. split; [assumption|]. apply latin1_app. now split.
Qed.

(** *** [encode("latin-1")] and its inverse *)

Lemma encode_decode s b : encode_latin1 s = Ok b -> decode_latin1 b = s.
Proof.
  revert b. induction s as [|c s IH]; intros b H; simpl in H.
  - now inversion H.
  - destruct (Byte.of_N c) as [x|] eqn:Ex; [|discriminate].
    inv_bind H. inversion H; subst. simpl.
    apply Byte.to_of_N in Ex. rewrite Ex. f_equal. now apply IH.
Qed.

Lemma decode_encode b : encode_latin1 (decode_latin1 b) = Ok b.
Proof.
  induction b as [|x b IH]; simpl; [reflexivity|].
  rewrite Byte.of_to_N, IH. reflexivity.
Qed.

Lemma decode_length b : length (decode_latin1 b) = length b.
Proof. apply length_map. Qed.

Lemma decode_app a b : decode_latin1 (a ++ b) = decode_latin1 a ++ decode_latin1 b.
Proof. apply map_app. Qed.

Lemma encode_length s b : encode_latin1 s = Ok b -> length b = length s.
Proof. intros H. apply encode_decode in H. subst. symmetry. apply decode_length. Qed.

Lemma encode_total s : latin1 s -> exists b, encode_latin1 s = Ok b.
Proof.
  induction 1 as [|c s Hc _ (b & IH)]; simpl; [eauto|].
  destruct (Byte.of_N c) as [x|] eqn:Ex.
  - rewrite IH. simpl. eauto.
  - exfalso. apply Byte.of_N_None_iff in Ex. cbv beta in Hc. lia.
Qed.

Lemma encode_raises s e : encode_latin1 s = Raise e -> e = UnicodeEncodeError.
Proof.
  induction s as [|c s IH]; simpl; [discriminate|].
  destruct (Byte.of_N c); [|now inversion 1].
  destruct (encode_latin1 s); simpl; [discriminate|].
  intros H. inversion H; subst. now apply IH.
Qed.

Lemma encode_latin1_iff s : latin1 s <-> exists b, encode_latin1 s = Ok b.
Proof.
  split; [apply encode_total|]. intros (b & H). apply encode_decode in H. subst.
  apply Forall_forall. intros c Hc. apply in_map_iff in Hc.
  destruct Hc as (x & <- & _). pose proof (Byte.to_N_bounded x). lia.
Qed.

Lemma endswith_nl_decode b : endswith_nl b = ends_nl (decode_latin1 b).
Proof.
  unfold endswith_nl, ends_nl, decode_latin1. rewrite <- map_rev.
  destruct (rev b) as [|x r]; simpl; [reflexivity|].
  destruct x; reflexivity.
Qed.

(* ================================================================== *)
(** ** Serialization: the layout of [_build_pdf_bytes] *)
(* ================================================================== *)

Lemma latin1_nl : latin1 nl.
Proof. repeat constructor. Qed.

Lemma latin1_zfill10 n : latin1 (zfill10 n).
Proof.
  unfold zfill10. apply latin1_app. split.
  - now apply latin1_repeat.
  - apply latin1_str_of_nat.
Qed.

(** Texts assembled from literals, numbers and latin-1 parts. *)
Ltac latin1_parts :=
  repeat first
    [ assumption
    | apply latin1_lit
    | exact latin1_nl
    | apply latin1_str_of_nat
    | apply latin1_str_of_Z
    | apply latin1_zfill10
    | apply latin1_app; split ].

Lemma latin1_obj_header i : latin1 (obj_header i).
Proof. unfold obj_header. latin1_parts. Qed.

Lemma latin1_xref_entry off : latin1 (xref_entry off).
Proof. unfold xref_entry. latin1_parts. Qed.

Lemma latin1_xref_header total : latin1 (xref_header total).
Proof. unfold xref_header. latin1_parts. Qed.

Lemma latin1_trailer_text t c x : latin1 (trailer_text t c x).
Proof. unfold trailer_text. latin1_parts. Qed.

Lemma obj_step_Ok out offs ic out' offs' :
  obj_step (out, offs) ic = Ok (out', offs') ->
  decode_latin1 out' = decode_latin1 out ++ obj_text ic
  /\ offs' = offs ++ [length out].
Proof.
  destruct ic as [index content]. unfold obj_step, obj_text. cbn [fst snd].
  intros H. inv_bind H. rename a into hdr. inv_bind H. rename a into body.
  inversion H; subst; clear H. split; [|reflexivity].
  apply encode_decode in E, E0.
  rewrite endswith_nl_decode, E0.
  destruct (ends_nl (or_empty content));
    rewrite ?decode_app, E, E0, <- ?app_assoc; reflexivity.
Qed.

Lemma obj_step_total out offs ic :
  latin1 (or_empty (snd ic)) -> exists out', obj_step (out, offs) ic = Ok (out', offs ++ [length out]).
Proof.
  destruct ic as [index content]. cbn [snd]. intros Hc. unfold obj_step.
  destruct (encode_total (latin1_obj_header index)) as (hdr & ->).
  destruct (encode_total Hc) as (body & ->). cbn [bind]. eauto.
Qed.

Lemma obj_step_raises st ic e : obj_step st ic = Raise e -> e = UnicodeEncodeError.
Proof.
  destruct st as [out offs], ic as [index content]. unfold obj_step.
  destruct (encode_latin1 (obj_header index)) eqn:E1; cbn [bind].
  - destruct (encode_latin1 (or_empty content)) eqn:E2; cbn [bind]; [discriminate|].
    intros H; inversion H; subst. eapply encode_raises; eauto.
  - intros H; inversion H; subst. eapply encode_raises; eauto.
Qed.

Lemma obj_loop_Ok l : forall out offs out' offs',
  for_each obj_step l (out, offs) = Ok (out', offs') ->
  decode_latin1 out' = decode_latin1 out ++ concat (List.map obj_text l)
  /\ offs' = offs ++ offsets_from (length out) l.
Proof.
  induction l as [|ic l IH]; intros out offs out' offs' H; cbn [for_each] in H.
  - inversion H; subst. cbn. now rewrite !app_nil_r.
  - inv_bind H. destruct a as [out1 offs1].
    apply obj_step_Ok in E. destruct E as (E1 & ->).
    apply IH in H. destruct H as (H1 & ->). split.
    + rewrite H1, E1. cbn [List.map concat]. now rewrite <- app_assoc.
    + cbn [offsets_from]. rewrite <- app_assoc. cbn [app]. do 3 f_equal.
      rewrite <- !decode_length, E1, length_app. reflexivity.
Qed.

Lemma obj_loop_total l : forall out offs,
  Forall (fun ic => latin1 (or_empty (snd ic))) l ->
  exists st, for_each obj_step l (out, offs) = Ok st.
Proof.
  induction l as [|ic l IH]; intros out offs Hl; cbn [for_each]; [eauto|].
  inversion Hl; subst.
  destruct (obj_step_total out offs ic) as (out1 & ->); [assumption|].
  cbn [bind]. now apply IH.
Qed.

Lemma xref_loop_Ok offs : forall out out',
  for_each xref_step offs out = Ok out' ->
  decode_latin1 out' = decode_latin1 out ++ concat (List.map xref_entry offs).
Proof.
  induction offs as [|o offs IH]; intros out out' H; cbn [for_each] in H.
  - inversion H; subst. cbn. now rewrite app_nil_r.
  - inv_bind H. unfold xref_step in E. inv_bind E. inversion E; subst.
    apply IH in H. rewrite H, decode_app. apply encode_decode in E0.
    rewrite E0. cbn [List.map concat]. now rewrite <- app_assoc.
Qed.

Lemma xref_loop_total offs : forall out,
  exists out', for_each xref_step offs out = Ok out'.
Proof.
  induction offs as [|o offs IH]; intros out; cbn [for_each]; [eauto|].
  unfold xref_step at 1.
  destruct (encode_total (latin1_xref_entry o)) as (e & ->). cbn [bind]. apply IH.
Qed.

Lemma build_pdf_bytes_Ok objs cat out :
  _build_pdf_bytes objs cat = Ok out -> decode_latin1 out = pdf_text objs cat.
Proof.
  unfold _build_pdf_bytes, pdf_text. intros H.
  inv_bind H. destruct a as [body offsets].
  apply obj_loop_Ok in E. destruct E as (Eb & Eo). cbn [app] in Eo. subst offsets.
  inv_bind H. rename a into h. inv_bind H. rename a into out1.
  inv_bind H. rename a into t. inversion H; subst; clear H.
  apply xref_loop_Ok in E0. apply encode_decode in E, E1.
  rewrite decode_app, E0, !decode_app, E, E1, <- Eb, decode_length.
  change (length pdf_header) with 9. now rewrite <- !app_assoc.
Qed.

Lemma build_pdf_bytes_total objs cat :
  Forall (fun c => latin1 (or_empty c)) (tl objs) ->
  exists out, _build_pdf_bytes objs cat = Ok out.
Proof.
  intros Hl. unfold _build_pdf_bytes.
  destruct (@obj_loop_total (enumerate 1 (tl objs)) pdf_header []) as ([body offs] & ->).
  { generalize 1. induction Hl as [|c l Hc Hl IH]; intros n; cbn [enumerate]; constructor; auto. }
  cbn [bind].
  destruct (encode_total (latin1_xref_header (length objs))) as (h & ->). cbn [bind].
  destruct (xref_loop_total offs ((body ++ h) ++ free_entry)) as (out1 & ->). cbn [bind].
  destruct (encode_total (latin1_trailer_text (length objs) cat (length body))) as (t & ->).
  cbn [bind]. eauto.
Qed.

Lemma build_pdf_bytes_raises objs cat e :
  _build_pdf_bytes objs cat = Raise e -> e = UnicodeEncodeError.
Proof.
  unfold _build_pdf_bytes.
  assert (Hloop : forall l st e', for_each obj_step l st = Raise e' -> e' = UnicodeEncodeError).
  { induction l as [|ic l IH]; intros st e'; cbn [for_each]; [discriminate|].
    destruct (obj_step st ic) eqn:E; cbn [bind]; [apply IH|].
    intros H; inversion H; subst. eapply obj_step_raises; eauto. }
  destruct (for_each obj_step (enumerate 1 (tl objs)) (pdf_header, [])) as [[body offs]|e'] eqn:E;
    cbn [bind].
  - destruct (encode_total (latin1_xref_header (length objs))) as (h & ->). cbn [bind].
    destruct (xref_loop_total offs ((body ++ h) ++ free_entry)) as (out1 & ->). cbn [bind].
    destruct (encode_total (latin1_trailer_text (length objs) cat (length body))) as (t & ->).
    cbn [bind]. discriminate.
  - intros H; inversion H; subst. eapply Hloop; eauto.
Qed.

(* ================================================================== *)
(** ** The object table built by [render_pdf] *)
(* ================================================================== *)

Lemma setitem_mid A (pre : list A) x post v :
  setitem (pre ++ x :: post) (length pre) v = Ok (pre ++ v :: post).
Proof.
  unfold setitem. rewrite length_app. cbn [length].
  destruct (Nat.ltb_spec (length pre) (length pre + S (length post))); [|lia].
  rewrite firstn_app, Nat.sub_diag, firstn_all. cbn [firstn]. rewrite app_nil_r.
  replace (S (length pre)) with (length pre + 1) by lia.
  rewrite skipn_app, skipn_all2 by lia.
  replace (length pre + 1 - length pre) with 1 by lia. reflexivity.
Qed.

Lemma setitem_at A (l : list A) i pre x post v :
  l = pre ++ x :: post -> i = length pre ->
  setitem l i v = Ok (pre ++ v :: post).
Proof. intros -> ->. apply setitem_mid. Qed.

Lemma length_unfilled todo : length (flat_map unfilled_page todo) = 2 * length todo.
Proof. induction todo as [|pg todo IH]; cbn [flat_map length app unfilled_page]; lia. Qed.

Lemma length_filled pid l : length (flat_map (filled_page pid) l) = 2 * length l.
Proof. induction l as [|pg todo IH]; cbn [flat_map length app filled_page]; lia. Qed.

Lemma length_enumerate A (l : list A) : forall s, length (enumerate s l) = length l.
Proof. induction l as [|a l IH]; intros s; cbn [enumerate length]; auto. Qed.

Lemma page_loop todo : forall objs refs j,
  length objs = 2 * j + 2 ->
  fold_left page_step todo (objs, refs)
  = (objs ++ flat_map unfilled_page todo,
     refs ++ List.map page_ref (seq j (length todo))).
Proof.
  induction todo as [|pg todo IH]; intros objs refs j Hlen.
  - cbn. now rewrite !app_nil_r.
  - cbn [fold_left length seq List.map flat_map].
    unfold page_step at 2, _add_object. cbn iota beta.
    rewrite (IH _ _ (S j)) by (rewrite !length_app; cbn [length]; lia).
    rewrite !length_app. cbn [length].
    replace (length objs + 1 + 1 - 1) with (2 * j + 3) by lia.
    replace (length objs + 1 - 1) with (2 * j + 2) by lia.
    unfold unfilled_page at 2, page_ref at 2.
    rewrite <- !app_assoc. reflexivity.
Qed.

Lemma fill_loop pid todo : forall pre post j,
  length pre = 2 * j + 2 ->
  for_each (fill_step pid 1) (List.map page_ref (seq j (length todo)))
    (pre ++ flat_map unfilled_page todo ++ post)
  = Ok (pre ++ flat_map (filled_page pid) (enumerate j todo) ++ post).
Proof.
  induction todo as [|pg todo IH]; intros pre post j Hlen.
  - reflexivity.
  - cbn [length seq List.map for_each flat_map enumerate].
    unfold fill_step at 1, page_ref at 1.
    rewrite (@setitem_at _ _ _ (pre ++ [Some (content_body (_build_content_stream pg))])
               None (flat_map unfilled_page todo ++ post)).
    + cbn [bind].
      specialize (IH (pre ++ filled_page pid (j, pg)) post (S j)).
      rewrite <- !app_assoc in IH. rewrite <- !app_assoc.
      apply IH. rewrite length_app. cbn [length filled_page]. lia.
    + unfold unfilled_page at 1. rewrite <- !app_assoc. reflexivity.
    + rewrite length_app. cbn [length]. lia.
Qed.

(** [render_pdf] never raises before serialization, and its table has the
    closed form [object_table]; the catalog is the last object. *)
Lemma render_objects_eq pages :
  render_objects pages = Ok (object_table pages, 2 * length pages + 3).
Proof.
  unfold render_objects, _add_object. cbn [app length Nat.sub].
  rewrite page_loop with (j := 0) by reflexivity.
  cbv iota beta. rewrite app_nil_l.
  set (P := length pages).
  set (objs1 := [None; Some font_body] ++ flat_map unfilled_page pages).
  assert (Hlen1 : length objs1 = 2 * P + 2).
  { unfold objs1. rewrite length_app, length_unfilled. fold P. cbn [length]. lia. }
  rewrite !length_app, Hlen1. cbn [length].
  replace (2 * P + 2 + 1 + 1 - 1) with (2 * P + 3) by lia.
  replace (2 * P + 2 + 1 - 1) with (2 * P + 2) by lia.
  rewrite length_map, length_seq.
  rewrite (@setitem_at _ _ _ objs1 None [None]
             (Some (pages_body P (kids_text (List.map page_ref (seq 0 P))))));
    [| now rewrite <- app_assoc | now rewrite Hlen1 ].
  cbn [bind]. unfold objs1. rewrite <- app_assoc.
  rewrite (@fill_loop (2 * P + 2) pages [None; Some font_body] _ 0) by reflexivity.
  cbn [bind].
  rewrite (@setitem_at _ _ _
             ([None; Some font_body]
                ++ flat_map (filled_page (2 * P + 2)) (enumerate 0 pages)
                ++ [Some (pages_body P (kids_text (List.map page_ref (seq 0 P))))])
             None [] (Some (catalog_body (2 * P + 2)))).
  - cbn [bind]. unfold object_table. fold P.
    rewrite <- !app_assoc. reflexivity.
  - rewrite <- !app_assoc. reflexivity.
  - rewrite !length_app, length_filled, length_enumerate. cbn [length]. fold P. lia.
Qed.

(* ================================================================== *)
(** ** The table composer: rows, widths, lines *)
(* ================================================================== *)

Lemma getitem_mid A (pre : list A) x post :
  getitem (pre ++ x :: post) (length pre) = Ok x.
Proof.
  unfold getitem. rewrite nth_error_app2, Nat.sub_diag by lia. reflexivity.
Qed.

Lemma getitem_out A (l : list A) i : length l <= i -> getitem l i = Raise IndexError.
Proof.
  intros H. unfold getitem. apply nth_error_None in H. now rewrite H.
Qed.

Lemma padded_Ok cells : forall pre ws,
  length cells <= length ws ->
  map_result (format_cell (pre ++ ws)) (enumerate (length pre) cells)
  = Ok (pad_cells cells ws).
Proof.
  induction cells as [|c cells IH]; intros pre ws Hlen; [reflexivity|].
  destruct ws as [|w ws]; [cbn in Hlen; lia|].
  cbn [enumerate map_result pad_cells]. unfold format_cell at 1. cbn [fst snd].
  rewrite getitem_mid. cbn [bind].
  specialize (IH (pre ++ [w]) ws). rewrite <- app_assoc, length_app in IH.
  cbn [app length] in IH. rewrite Nat.add_1_r in IH.
  rewrite IH by (cbn in Hlen; lia). reflexivity.
Qed.

Lemma padded_raises cells : forall pre ws,
  length ws < length cells ->
  map_result (format_cell (pre ++ ws)) (enumerate (length pre) cells)
  = Raise IndexError.
Proof.
  induction cells as [|c cells IH]; intros pre ws Hlen; [cbn in Hlen; lia|].
  cbn [enumerate map_result]. unfold format_cell at 1. cbn [fst snd].
  destruct ws as [|w ws].
  - rewrite getitem_out by (rewrite app_nil_r; lia). reflexivity.
  - rewrite getitem_mid. cbn [bind].
    specialize (IH (pre ++ [w]) ws). rewrite <- app_assoc, length_app in IH.
    cbn [app length] in IH. rewrite Nat.add_1_r in IH.
    rewrite IH by (cbn in Hlen; lia). reflexivity.
Qed.

Lemma format_row_Ok cells widths :
  length cells <= length widths ->
  _format_row cells widths = Ok (join (lit " | ") (pad_cells cells widths)).
Proof.
  intros Hlen. unfold _format_row.
  change (fun ic : nat * str => w <- getitem widths (fst ic);; Ok (ljust (snd ic) w))
    with (format_cell widths).
  pose proof (@padded_Ok cells [] widths Hlen) as E. cbn [app length] in E.
  rewrite E. reflexivity.
Qed.

Lemma format_row_raises cells widths :
  length widths < length cells ->
  _format_row cells widths = Raise IndexError.
Proof.
  intros Hlen. unfold _format_row.
  change (fun ic : nat * str => w <- getitem widths (fst ic);; Ok (ljust (snd ic) w))
    with (format_cell widths).
  pose proof (@padded_raises cells [] widths Hlen) as E. cbn [app length] in E.
  rewrite E. reflexivity.
Qed.

(** *** Column widths *)

Lemma length_widen ws : forall row, length (widen ws row) = length ws.
Proof.
  induction ws as [|w ws IH]; intros [|parts row]; cbn [widen length]; auto.
Qed.

Lemma part_loop parts : forall pre w post,
  for_each (widths_part_step (length pre)) parts (pre ++ w :: post)
  = Ok (pre ++ Nat.max w (parts_max parts) :: post).
Proof.
  induction parts as [|p parts IH]; intros pre w post; cbn [for_each].
  - unfold parts_max. cbn. now rewrite Nat.max_0_r.
  - unfold widths_part_step at 1. rewrite getitem_mid. cbn [bind].
    rewrite setitem_mid. cbn [bind]. rewrite IH.
    unfold parts_max. cbn [List.map list_max fold_right].
    now rewrite Nat.max_assoc.
Qed.

Lemma cell_loop row : forall pre ws,
  length row <= length ws ->
  for_each widths_cell_step (enumerate (length pre) row) (pre ++ ws)
  = Ok (pre ++ widen ws row).
Proof.
  induction row as [|parts row IH]; intros pre ws Hlen.
  - destruct ws; reflexivity.
  - destruct ws as [|w ws]; [cbn in Hlen; lia|].
    cbn [enumerate for_each widen]. unfold widths_cell_step at 1. cbn [fst snd].
    rewrite part_loop. cbn [bind].
    specialize (IH (pre ++ [Nat.max w (parts_max parts)]) ws).
    rewrite <- !app_assoc, length_app in IH. cbn [app length] in IH.
    rewrite Nat.add_1_r in IH. apply IH. cbn in Hlen. lia.
Qed.

(** A row with more cells than there are widths: the first extra cell has at
    least one part, and reading its width raises. *)
Lemma cell_loop_raises row : forall pre ws,
  length ws < length row -> Forall (fun parts => parts <> []) row ->
  for_each widths_cell_step (enumerate (length pre) row) (pre ++ ws)
  = Raise IndexError.
Proof.
  induction row as [|parts row IH]; intros pre ws Hlen Hne; [cbn in Hlen; lia|].
  inversion Hne as [|? ? Hp Hrow]; subst.
  cbn [enumerate for_each]. unfold widths_cell_step at 1. cbn [fst snd].
  destruct ws as [|w ws].
  - destruct parts as [|p parts]; [congruence|]. cbn [for_each].
    unfold widths_part_step at 1.
    rewrite getitem_out by (rewrite app_nil_r; lia). reflexivity.
  - rewrite part_loop. cbn [bind].
    specialize (IH (pre ++ [Nat.max w (parts_max parts)]) ws).
    rewrite <- !app_assoc, length_app in IH. cbn [app length] in IH.
    rewrite Nat.add_1_r in IH. apply IH; [cbn in Hlen; lia | assumption].
Qed.

Lemma row_loop rows : forall ws,
  Forall (fun row => length row <= length ws) rows ->
  for_each widths_row_step rows ws = Ok (fold_left widen rows ws).
Proof.
  induction rows as [|row rows IH]; intros ws Hrows; [reflexivity|].
  inversion Hrows as [|? ? Hrow Hrest]; subst.
  cbn [for_each fold_left]. unfold widths_row_step at 1.
  pose proof (@cell_loop row [] ws Hrow) as E. cbn [app length] in E.
  rewrite E. cbn [bind].
  apply IH. rewrite length_widen. assumption.
Qed.

Lemma row_loop_raises rows : forall ws,
  Forall (Forall (fun parts => parts <> [])) rows ->
  Exists (fun row => length ws < length row) rows ->
  for_each widths_row_step rows ws = Raise IndexError.
Proof.
  induction rows as [|row rows IH]; intros ws Hne Hex; [inversion Hex|].
  inversion Hne as [|? ? Hrow Hrest]; subst.
  cbn [for_each]. unfold widths_row_step at 1.
  destruct (Nat.le_gt_cases (length row) (length ws)) as [Hle|Hgt].
  - pose proof (@cell_loop row [] ws Hle) as E. cbn [app length] in E.
    rewrite E. cbn [bind].
    apply IH; [assumption|]. inversion Hex as [? ? Hbad|]; subst; [lia|].
    eapply Exists_impl; [|eassumption]. cbn beta. intros r. rewrite length_widen. auto.
  - pose proof (@cell_loop_raises row [] ws Hgt Hrow) as E. cbn [app length] in E.
    rewrite E. reflexivity.
Qed.

Lemma column_widths_Ok headers splits :
  Forall (fun row => length row <= length headers) splits ->
  _column_widths headers splits
  = Ok (List.map (fun width => width + 2)
          (fold_left widen splits (List.map (@length char) headers))).
Proof.
  intros Hrows. unfold _column_widths. rewrite row_loop; [reflexivity|].
  now rewrite length_map.
Qed.

Lemma column_widths_raises headers splits :
  Forall (Forall (fun parts => parts <> [])) splits ->
  Exists (fun row => length headers < length row) splits ->
  _column_widths headers splits = Raise IndexError.
Proof.
  intros Hne Hex. unfold _column_widths. rewrite row_loop_raises; auto.
  now rewrite length_map.
Qed.

Lemma split_cell_nonempty value : _split_cell value <> [].
Proof.
  unfold _split_cell.
  destruct (splitlines match value with Some s => s | None => [] end);
    cbn [List.map]; discriminate.
Qed.

(** *** Lines of a table whose rows are no longer than the header *)

Lemma length_final_widths headers splits :
  length (final_widths headers splits) = length headers.
Proof.
  unfold final_widths. rewrite length_map.
  assert (H : forall rows ws, length (fold_left widen rows ws) = length ws).
  { induction rows as [|r rows IH]; intros ws; cbn [fold_left]; [reflexivity|].
    now rewrite IH, length_widen. }
  now rewrite H, length_map.
Qed.

Lemma collect_loop X (f : X -> result str) (g : X -> str) xs :
  (forall x, In x xs -> f x = Ok (g x)) ->
  forall acc,
    for_each (fun acc x => l <- f x ;; Ok (acc ++ [l])) xs acc
    = Ok (acc ++ List.map g xs).
Proof.
  induction xs as [|x xs IH]; intros Hf acc; cbn [for_each List.map].
  - now rewrite app_nil_r.
  - rewrite Hf by (now left). cbn [bind].
    rewrite IH by (intros; apply Hf; now right).
    now rewrite <- app_assoc.
Qed.

Lemma length_line_cells segs index : length (line_cells segs index) = length segs.
Proof. apply length_map. Qed.

Lemma row_step_Ok widths sep lines segs :
  length segs <= length widths ->
  row_step widths sep lines segs = Ok (lines ++ row_lines widths segs ++ [sep]).
Proof.
  intros Hlen. unfold row_step.
  rewrite (@collect_loop _
             (fun index => _format_row (line_cells segs index) widths)
             (fun index => join (lit " | ") (pad_cells (line_cells segs index) widths))).
  - cbn [bind]. unfold row_lines. now rewrite <- app_assoc.
  - intros index _. apply format_row_Ok. now rewrite length_line_cells.
Qed.

Lemma rows_loop_Ok widths sep splits : forall lines,
  Forall (fun segs => length segs <= length widths) splits ->
  for_each (row_step widths sep) splits lines
  = Ok (lines ++ flat_map (fun segs => row_lines widths segs ++ [sep]) splits).
Proof.
  induction splits as [|segs splits IH]; intros lines Hs; cbn [for_each flat_map].
  - now rewrite app_nil_r.
  - inversion Hs; subst. rewrite row_step_Ok by assumption. cbn [bind].
    rewrite IH by assumption. now rewrite <- !app_assoc.
Qed.

Lemma split_rows_length (headers : list str) (rows : list (list cell)) :
  Forall (fun row => length row <= length headers) rows ->
  Forall (fun segs => length segs <= length headers) (split_rows rows).
Proof.
  intros H. unfold split_rows. apply Forall_map.
  eapply Forall_impl; [|exact H]. cbn beta. intros row. now rewrite length_map.
Qed.

Lemma build_table_lines_Ok headers (rows : list (list cell)) :
  Forall (fun row => length row <= length headers) rows ->
  _build_table_lines headers rows = Ok (table_lines headers (split_rows rows)).
Proof.
  intros Hrows. apply split_rows_length in Hrows.
  unfold _build_table_lines. fold (split_rows rows).
  rewrite column_widths_Ok by assumption. cbn [bind].
  fold (final_widths headers (split_rows rows)).
  rewrite format_row_Ok by (now rewrite length_final_widths). cbn [bind].
  rewrite rows_loop_Ok
    by (rewrite length_final_widths; assumption).
  cbn [bind]. unfold table_lines.
  destruct (split_rows rows); rewrite ?app_nil_r; reflexivity.
Qed.

Lemma build_table_lines_raises headers (rows : list (list cell)) :
  Exists (fun row => length headers < length row) rows ->
  _build_table_lines headers rows = Raise IndexError.
Proof.
  intros Hex. unfold _build_table_lines.
  rewrite column_widths_raises; [reflexivity | |].
  - apply Forall_map. apply Forall_forall. intros row _.
    apply Forall_map. apply Forall_forall. intros c _. apply split_cell_nonempty.
  - apply Exists_map. eapply Exists_impl; [|exact Hex].
    cbn beta. intros row. now rewrite length_map.
Qed.

(* ================================================================== *)
(** ** Pagination *)
(* ================================================================== *)

Lemma paginate_unfold items :
  _paginate items = paginate_finish (fold_left paginate_step items ([], [], 0%Z)).
Proof.
  unfold _paginate, paginate_finish.
  destruct (fold_left paginate_step items ([], [], 0%Z)) as [[pages current] used].
  reflexivity.
Qed.

(** One iteration of the loop: the page is closed exactly when it is not
    empty and the item does not fit. *)
Lemma paginate_step_eq pages current used text size :
  paginate_step (pages, current, used) (text, size)
  = if page_full current used (size + 4)
    then (pages ++ [current], [(text, size)], (size + 4)%Z)
    else (pages, current ++ [(text, size)], (used + (size + 4))%Z).
Proof.
  unfold paginate_step. destruct (page_full current used (size + 4)); reflexivity.
Qed.

Lemma paginate_loop items : forall pages current used,
  (current <> [] \/ items <> []) ->
  paginate_finish (fold_left paginate_step items (pages, current, used))
  = pages ++ greedy usable_height current used items.
Proof.
  induction items as [|[text size] items IH]; intros pages current used Hne.
  - cbn [fold_left greedy paginate_finish].
    destruct current; [destruct Hne; congruence | reflexivity].
  - cbn [fold_left greedy]. rewrite paginate_step_eq. unfold page_full.
    destruct (match current with [] => false | _ :: _ => (used + (size + 4) >? usable_height)%Z end).
    + rewrite IH by (left; discriminate). now rewrite <- app_assoc.
    + rewrite IH; [reflexivity|]. left. destruct current; discriminate.
Qed.

Lemma paginate_refines items :
  _paginate items = paginate_spec PAGE_HEIGHT MARGIN items.
Proof.
  rewrite paginate_unfold. destruct items as [|it items]; [reflexivity|].
  rewrite paginate_loop by (right; discriminate). reflexivity.
Qed.

Lemma greedy_concat usable items : forall current used,
  concat (greedy usable current used items) = current ++ items.
Proof.
  induction items as [|[text size] items IH]; intros current used; cbn [greedy].
  - cbn. now rewrite !app_nil_r.
  - destruct (match current with [] => false | _ => (used + (size + 4) >? usable)%Z end).
    + cbn [concat]. rewrite IH. reflexivity.
    + rewrite IH, <- app_assoc. reflexivity.
Qed.

Lemma greedy_nonempty usable items : forall current used,
  (current <> [] \/ items <> []) ->
  Forall (fun pg => pg <> []) (greedy usable current used items).
Proof.
  induction items as [|[text size] items IH]; intros current used Hne; cbn [greedy].
  - constructor; [|constructor]. destruct Hne; congruence.
  - destruct current as [|c current].
    + apply IH. left. discriminate.
    + destruct (used + (size + 4) >? usable)%Z.
      * constructor; [discriminate|]. apply IH. left. discriminate.
      * apply IH. left. discriminate.
Qed.

(* ================================================================== *)
(** ** Decimal numerals *)
(* ================================================================== *)

Lemma digits_length_le fuel : forall n k,
  (n < 10 ^ N.of_nat (S k))%N -> length (digits fuel n) <= S k.
Proof.
  induction fuel as [|f IH]; intros n k Hn; cbn [digits]; [cbn; lia|].
  destruct (N.ltb_spec n 10) as [Hlt|Hge]; [cbn; lia|].
  rewrite length_app. cbn [length].
  destruct k as [|k]; [cbn in Hn; lia|].
  specialize (IH (n / 10)%N k). rewrite Nat.add_1_r. apply le_n_S. apply IH.
  rewrite Nat2N.inj_succ, N.pow_succ_r' in Hn.
  apply N.Div0.div_lt_upper_bound. exact Hn.
Qed.

Lemma digits_length_ge fuel : forall n k,
  (n < 2 ^ N.of_nat fuel)%N -> (10 ^ N.of_nat k <= n)%N ->
  S k <= length (digits fuel n).
Proof.
  induction fuel as [|f IH]; intros n k Hfuel Hn.
  - cbn in Hfuel. assert (10 ^ N.of_nat k <> 0)%N by (apply N.pow_nonzero; lia). lia.
  - cbn [digits]. destruct (N.ltb_spec n 10) as [Hlt|Hge].
    + destruct k as [|k]; [cbn; lia|]. exfalso.
      rewrite Nat2N.inj_succ, N.pow_succ_r' in Hn.
      assert (10 ^ N.of_nat k <> 0)%N by (apply N.pow_nonzero; lia). nia.
    + rewrite length_app. cbn [length]. rewrite Nat.add_1_r. apply le_n_S.
      destruct k as [|k]; [lia|]. apply IH.
      * rewrite Nat2N.inj_succ, N.pow_succ_r' in Hfuel.
        apply N.Div0.div_lt_upper_bound. nia.
      * rewrite Nat2N.inj_succ, N.pow_succ_r' in Hn.
        apply N.div_le_lower_bound; [lia | exact Hn].
Qed.

Lemma str_of_N_fuel n : (n < 2 ^ N.of_nat (S (N.to_nat (N.log2 n))))%N.
Proof.
  rewrite Nat2N.inj_succ, N2Nat.id.
  destruct (N.eq_dec n 0) as [->|Hn]; [reflexivity|].
  apply N.log2_spec. lia.
Qed.

Lemma zfill10_length n :
  (N.of_nat n < 10000000000)%N -> length (zfill10 n) = 10.
Proof.
  intros Hn. unfold zfill10. rewrite length_app, repeat_length.
  assert (length (str_of_nat n) <= 10); [|lia].
  apply (@digits_length_le _ _ 9). exact Hn.
Qed.

Lemma zfill10_long n :
  (10000000000 <= N.of_nat n)%N -> 11 <= length (zfill10 n).
Proof.
  intros Hn. unfold zfill10. rewrite length_app, repeat_length.
  assert (11 <= length (str_of_nat n)); [|lia].
  apply (@digits_length_ge _ _ 10); [apply str_of_N_fuel | exact Hn].
Qed.

Lemma xref_entry_length n :
  (N.of_nat n < 10000000000)%N -> length (xref_entry n) = 20.
Proof.
  intros Hn. unfold xref_entry. rewrite !length_app, zfill10_length by assumption.
  reflexivity.
Qed.

Lemma decimal_value_snoc s d :
  decimal_value (s ++ [d]) = (10 * decimal_value s + (d - 48))%N.
Proof. unfold decimal_value. now rewrite fold_left_app. Qed.

Lemma digits_value fuel : forall n,
  (n < 2 ^ N.of_nat fuel)%N -> decimal_value (digits fuel n) = n.
Proof.
  induction fuel as [|f IH]; intros n Hn.
  - cbn in Hn. cbn. lia.
  - cbn [digits]. destruct (N.ltb_spec n 10) as [Hlt|Hge].
    + unfold decimal_value. cbn [fold_left]. lia.
    + rewrite decimal_value_snoc, IH.
      * rewrite (N.add_comm 48), N.add_sub. symmetry. apply N.Div0.div_mod.
      * rewrite Nat2N.inj_succ, N.pow_succ_r' in Hn.
        apply N.Div0.div_lt_upper_bound. nia.
Qed.

Lemma decimal_value_zeros k s :
  decimal_value (repeat 48%N k ++ s) = decimal_value s.
Proof.
  unfold decimal_value. rewrite fold_left_app. f_equal.
  induction k as [|k IH]; [reflexivity|]. cbn [repeat fold_left]. exact IH.
Qed.

Lemma zfill10_value n : decimal_value (zfill10 n) = N.of_nat n.
Proof.
  unfold zfill10. rewrite decimal_value_zeros. apply digits_value, str_of_N_fuel.
Qed.

(* ================================================================== *)
(** ** Latin-1 text stays latin-1 through the pipeline *)
(* ================================================================== *)

Lemma latin1_replace_char old new s :
  latin1 new -> latin1 s -> latin1 (replace_char old new s).
Proof.
  intros Hn Hs. unfold replace_char.
  induction Hs as [|c s Hc Hs IH]; cbn [flat_map]; [constructor|].
  apply latin1_app. split; [|exact IH].
  destruct (c =? old)%N; [exact Hn | now constructor].
Qed.

Lemma latin1_escape v : latin1 v -> latin1 (_escape v).
Proof.
  intros Hv. unfold _escape.
  repeat (apply latin1_replace_char; [repeat constructor|]). exact Hv.
Qed.

Lemma latin1_show_command text size y :
  latin1 text -> latin1 (show_command text size y).
Proof.
  intros Ht. apply latin1_escape in Ht. unfold show_command. latin1_parts.
Qed.

Lemma latin1_content_loop items : forall y commands,
  Forall latin1_item items -> Forall latin1 commands ->
  Forall latin1 (snd (fold_left content_step items (y, commands))).
Proof.
  induction items as [|[text size] items IH]; intros y commands Hi Hc; [exact Hc|].
  inversion Hi; subst. cbn [fold_left content_step]. apply IH; [assumption|].
  apply Forall_app. split; [assumption|]. constructor; [|constructor].
  now apply latin1_show_command.
Qed.

Lemma latin1_content_stream items :
  Forall latin1_item items -> latin1 (_build_content_stream items).
Proof.
  intros Hi. unfold _build_content_stream. apply latin1_join; [exact latin1_nl|].
  apply latin1_content_loop; [assumption | constructor].
Qed.

Lemma latin1_content_body stream : latin1 stream -> latin1 (content_body stream).
Proof. intros Hs. unfold content_body. latin1_parts. Qed.

Lemma latin1_page_body parent content font : latin1 (page_body parent content font).
Proof. unfold page_body. latin1_parts. Qed.

Lemma latin1_catalog_body pid : latin1 (catalog_body pid).
Proof. unfold catalog_body. latin1_parts. Qed.

Lemma latin1_kids_text refs : latin1 (kids_text refs).
Proof.
  unfold kids_text. apply latin1_join; [apply latin1_lit|].
  apply Forall_map. apply Forall_forall. intros ref _. latin1_parts.
Qed.

Lemma latin1_pages_body count kids : latin1 kids -> latin1 (pages_body count kids).
Proof. intros Hk. unfold pages_body. latin1_parts. Qed.

Lemma latin1_filled pid l :
  Forall (fun kp => Forall latin1_item (snd kp)) l ->
  Forall latin1_object (flat_map (filled_page pid) l).
Proof.
  induction 1 as [|kp l Hkp _ IH]; cbn [flat_map]; [constructor|].
  apply Forall_app. split; [|exact IH].
  unfold filled_page. constructor; [|constructor; [|constructor]].
  - apply latin1_content_body. now apply latin1_content_stream.
  - apply latin1_page_body.
Qed.

Lemma latin1_object_table pages :
  Forall (Forall latin1_item) pages ->
  Forall latin1_object (tl (object_table pages)).
Proof.
  intros Hp. unfold object_table. cbn [app tl].
  constructor; [apply latin1_lit|].
  apply Forall_app. split.
  - apply latin1_filled. generalize 0.
    induction Hp as [|pg pages Hpg _ IH]; intros n; cbn [enumerate]; constructor; auto.
  - constructor; [|constructor; [|constructor]].
    + apply latin1_pages_body, latin1_kids_text.
    + apply latin1_catalog_body.
Qed.

(** [render_pdf] returns bytes on latin-1 pages, and those bytes read back
    as [pdf_text] of the object table. *)
Lemma render_pdf_total pages :
  Forall (Forall latin1_item) pages -> exists out, render_pdf pages = Ok out.
Proof.
  intros Hp. unfold render_pdf. rewrite render_objects_eq. cbn [bind].
  apply build_pdf_bytes_total. now apply latin1_object_table.
Qed.

Lemma render_pdf_Ok pages out :
  render_pdf pages = Ok out ->
  decode_latin1 out = pdf_text (object_table pages) (2 * length pages + 3).
Proof.
  unfold render_pdf. rewrite render_objects_eq. cbn [bind].
  apply build_pdf_bytes_Ok.
Qed.

Lemma render_pdf_raises pages e : render_pdf pages = Raise e -> e = UnicodeEncodeError.
Proof.
  unfold render_pdf. rewrite render_objects_eq. cbn [bind].
  apply build_pdf_bytes_raises.
Qed.

(** *** The composer *)

Lemma latin1_lstrip s : latin1 s -> latin1 (lstrip s).
Proof.
  induction 1 as [|c s Hc Hs IH]; cbn [lstrip]; [constructor|].
  destruct (is_space c); [exact IH | now constructor].
Qed.

Lemma latin1_rev s : latin1 s -> latin1 (rev s).
Proof. apply Forall_rev. Qed.

Lemma latin1_strip s : latin1 s -> latin1 (strip s).
Proof.
  intros Hs. unfold strip, rstrip.
  apply latin1_rev, latin1_lstrip, latin1_rev, latin1_lstrip, Hs.
Qed.

Lemma latin1_splitlines_from s : forall cur,
  latin1 cur -> latin1 s -> Forall latin1 (splitlines_from cur s).
Proof.
  remember (length s) as n eqn:Hn.
  assert (Hle : length s <= n) by lia. clear Hn. revert s Hle.
  induction n as [|n IH]; intros s Hle cur Hcur Hs.
  - destruct s; [|cbn in Hle; lia]. cbn.
    destruct cur; constructor; [exact Hcur | constructor].
  - destruct s as [|c s]; cbn [splitlines_from].
    + destruct cur; constructor; [exact Hcur | constructor].
    + inversion Hs as [|? ? Hc Hs']; subst. cbn [length] in Hle.
      destruct (is_linebreak c).
      * constructor; [exact Hcur|].
        destruct s as [|c' s'].
        -- constructor.
        -- inversion Hs'; subst. cbn [length] in Hle.
           destruct ((c =? 13) && (c' =? 10))%N;
             apply IH; try constructor; try assumption; cbn [length]; lia.
      * apply IH; [lia | | assumption].
        apply latin1_app. split; [assumption | now repeat constructor].
Qed.

Lemma latin1_split_cell c : latin1_cell c -> Forall latin1 (_split_cell c).
Proof.
  intros Hc. unfold _split_cell. apply Forall_map.
  assert (H : Forall latin1 (splitlines match c with Some s => s | None => [] end)).
  { apply latin1_splitlines_from; [constructor|]. destruct c; [exact Hc | constructor]. }
  destruct (splitlines match c with Some s => s | None => [] end).
  - repeat constructor.
  - eapply Forall_impl; [|exact H]. apply latin1_strip.
Qed.

Lemma latin1_ljust s w : latin1 s -> latin1 (ljust s w).
Proof.
  intros Hs. unfold ljust. apply latin1_app. split; [exact Hs|].
  now apply latin1_repeat.
Qed.

Lemma latin1_pad_cells cells : forall widths,
  Forall latin1 cells -> Forall latin1 (pad_cells cells widths).
Proof.
  induction cells as [|c cells IH]; intros [|w ws] Hc; cbn [pad_cells];
    try constructor; inversion Hc; subst; auto using latin1_ljust.
Qed.

Lemma latin1_separator widths : latin1 (_separator widths).
Proof.
  unfold _separator. apply latin1_join; [apply latin1_lit|].
  apply Forall_map. apply Forall_forall. intros w _. now apply latin1_repeat.
Qed.

Lemma latin1_line_cells segs index :
  Forall (Forall latin1) segs -> Forall latin1 (line_cells segs index).
Proof.
  intros Hs. unfold line_cells. apply Forall_map.
  eapply Forall_impl; [|exact Hs]. cbn beta. intros parts Hp.
  destruct (index <? length parts) eqn:E; [|constructor].
  apply Nat.ltb_lt in E. rewrite Forall_forall in Hp. apply Hp. now apply nth_In.
Qed.

Lemma latin1_table_lines headers splits :
  Forall latin1 headers -> Forall (Forall (Forall latin1)) splits ->
  Forall latin1 (table_lines headers splits).
Proof.
  intros Hh Hs. unfold table_lines.
  set (widths := final_widths headers splits).
  assert (Hline : forall cells, Forall latin1 cells ->
                    latin1 (join (lit " | ") (pad_cells cells widths))).
  { intros cells Hc. apply latin1_join; [apply latin1_lit|].
    now apply latin1_pad_cells. }
  cbn [app]. constructor; [now apply Hline|].
  constructor; [apply latin1_separator|].
  apply Forall_app. split.
  - apply Forall_flat_map. eapply Forall_impl; [|exact Hs]. cbn beta.
    intros segs Hsegs. apply Forall_app. split.
    + unfold row_lines. apply Forall_map. apply Forall_forall. intros index _.
      apply Hline. now apply latin1_line_cells.
    + constructor; [apply latin1_separator | constructor].
  - destruct splits; constructor; [apply latin1_separator | constructor].
Qed.

Lemma latin1_split_rows rows :
  Forall (Forall latin1_cell) rows ->
  Forall (Forall (Forall latin1)) (split_rows rows).
Proof.
  intros Hr. unfold split_rows. apply Forall_map.
  eapply Forall_impl; [|exact Hr]. cbn beta. intros row Hrow.
  apply Forall_map. eapply Forall_impl; [|exact Hrow]. apply latin1_split_cell.
Qed.

Lemma latin1_table_items title lines :
  latin1 title -> Forall latin1 lines -> Forall latin1_item (table_items title lines).
Proof.
  intros Ht Hl. unfold table_items. cbn [app].
  constructor; [exact Ht|]. constructor; [constructor|].
  apply Forall_map. exact Hl.
Qed.

Lemma latin1_paginate items :
  Forall latin1_item items -> Forall (Forall latin1_item) (_paginate items).
Proof.
  intros Hi. rewrite paginate_refines. destruct items as [|it items].
  - repeat constructor.
  - unfold paginate_spec.
    apply Forall_concat. rewrite greedy_concat. exact Hi.
Qed.

(* ================================================================== *)
(** ** Column widths in closed form, and the length of every field *)
(* ================================================================== *)

Lemma widen_nth ws : forall row j,
  j < length ws ->
  nth j (widen ws row) 0 = Nat.max (nth j ws 0) (parts_max (nth j row [])).
Proof.
  induction ws as [|w ws IH]; intros row j Hj; [cbn in Hj; lia|].
  destruct row as [|parts row].
  - replace (nth j (@nil (list (list N))) []) with (@nil (list N)) by (now destruct j).
    change (parts_max []) with 0. rewrite Nat.max_0_r. now destruct j.
  - cbn [widen]. destruct j as [|j]; cbn [nth]; [reflexivity|].
    apply IH. cbn in Hj. lia.
Qed.

Lemma fold_widen_length splits : forall ws,
  length (fold_left widen splits ws) = length ws.
Proof.
  induction splits as [|r splits IH]; intros ws; cbn [fold_left]; [reflexivity|].
  now rewrite IH, length_widen.
Qed.

Lemma fold_widen_nth splits : forall ws j,
  j < length ws ->
  nth j (fold_left widen splits ws) 0
  = Nat.max (nth j ws 0)
            (list_max (List.map (fun segs => parts_max (nth j segs [])) splits)).
Proof.
  induction splits as [|r splits IH]; intros ws j Hj; cbn [fold_left List.map].
  - cbn. lia.
  - rewrite IH by (now rewrite length_widen). rewrite widen_nth by assumption.
    unfold list_max. cbn [fold_right]. lia.
Qed.

Lemma final_widths_nth headers splits j :
  j < length headers ->
  nth j (final_widths headers splits) 0 = column_width headers splits j.
Proof.
  intros Hj. unfold final_widths, column_width.
  rewrite nth_indep with (d' := 0 + 2)
    by (now rewrite length_map, fold_widen_length, length_map).
  rewrite (map_nth (fun width => width + 2)).
  rewrite fold_widen_nth by (now rewrite length_map).
  rewrite nth_indep with (d' := length (@nil N)) by (now rewrite length_map).
  rewrite (map_nth (@length N)). reflexivity.
Qed.

Lemma final_widths_spec headers splits :
  final_widths headers splits
  = List.map (column_width headers splits) (seq 0 (length headers)).
Proof.
  apply nth_ext with (d := 0) (d' := column_width headers splits 0).
  - now rewrite length_final_widths, length_map, length_seq.
  - intros j Hj. rewrite length_final_widths in Hj.
    rewrite (map_nth (column_width headers splits)), seq_nth by assumption.
    now apply final_widths_nth.
Qed.

Lemma ljust_length s w : length (ljust s w) = Nat.max (length s) w.
Proof. unfold ljust. rewrite length_app, repeat_length. lia. Qed.

Lemma pad_cells_length cells : forall widths,
  length cells <= length widths -> length (pad_cells cells widths) = length cells.
Proof.
  induction cells as [|c cells IH]; intros [|w ws] H; cbn [pad_cells length] in *;
    try lia. rewrite IH; lia.
Qed.

Lemma pad_cells_fits cells : forall widths,
  fits cells widths ->
  List.map (@length N) (pad_cells cells widths) = firstn (length cells) widths.
Proof.
  induction cells as [|c cells IH]; intros [|w ws] H; cbn [fits] in H;
    try reflexivity.
  destruct H as [Hc H]. cbn [pad_cells List.map length firstn].
  rewrite ljust_length, IH by assumption. f_equal. lia.
Qed.

Lemma fits_nth cells widths :
  length cells <= length widths ->
  (forall j, j < length cells -> length (nth j cells []) <= nth j widths 0) ->
  fits cells widths.
Proof.
  revert widths. induction cells as [|c cells IH]; intros [|w ws] Hlen H;
    cbn [fits]; auto; [cbn in Hlen; lia|].
  split.
  - apply (H 0). cbn. lia.
  - apply IH; [cbn in Hlen; lia|]. intros j Hj. apply (H (S j)). cbn. lia.
Qed.

Lemma list_max_In l x : In x l -> x <= list_max l.
Proof.
  induction l as [|a l IH]; [contradiction|]. cbn [list_max fold_right].
  intros [->|H]; [lia|]. apply IH in H. unfold list_max in H. lia.
Qed.

Lemma headers_fit headers splits : fits headers (final_widths headers splits).
Proof.
  apply fits_nth; [now rewrite length_final_widths|].
  intros j Hj. rewrite final_widths_nth by assumption. unfold column_width. lia.
Qed.

Lemma line_cells_fit headers splits segs index :
  In segs splits -> length segs <= length headers ->
  fits (line_cells segs index) (final_widths headers splits).
Proof.
  intros Hin Hlen. apply fits_nth.
  - now rewrite length_line_cells, length_final_widths.
  - intros j Hj. rewrite length_line_cells in Hj.
    rewrite final_widths_nth by lia. unfold column_width, line_cells.
    rewrite nth_indep with (d' := (fun parts => if index <? length parts
                                               then nth index parts [] else []) [])
      by (now rewrite length_map).
    rewrite (map_nth (fun parts => if index <? length parts
                                   then nth index parts [] else [])).
    assert (Hm : parts_max (nth j segs [])
                 <= list_max (List.map (fun segs => parts_max (nth j segs [])) splits)).
    { apply list_max_In. apply in_map_iff. exists segs. auto. }
    destruct (Nat.ltb_spec index (length (nth j segs []))) as [Hi|Hi]; [|cbn; lia].
    assert (length (nth index (nth j segs []) []) <= parts_max (nth j segs [])).
    { apply list_max_In. apply in_map. now apply nth_In. }
    lia.
Qed.

(** Length of a joined line. *)
Lemma join_length sep parts :
  length (join sep parts)
  = list_sum (List.map (@length N) parts) + length sep * (length parts - 1).
Proof.
  induction parts as [|p parts IH]; [cbn; lia|].
  destruct parts as [|q parts].
  - cbn. lia.
  - change (join sep (p :: q :: parts)) with (p ++ sep ++ join sep (q :: parts)).
    rewrite !length_app, IH. cbn [List.map list_sum length].
    rewrite !Nat.sub_succ, !Nat.sub_0_r. unfold list_sum. cbn [fold_right]. nia.
Qed.

Lemma list_sum_firstn_le k l : list_sum (firstn k l) <= list_sum l.
Proof.
  revert k. unfold list_sum.
  induction l as [|a l IH]; intros [|k]; cbn [firstn fold_right]; try lia.
  specialize (IH k). lia.
Qed.

(** *** Totality and the index error of the whole export *)

(** The export returns bytes when no row is longer than the header row and
    the title, the headers and the cells are latin-1 text. *)
Lemma build_pdf_table_total title headers (rows : list (list cell)) :
  latin1 title -> Forall latin1 headers -> Forall (Forall latin1_cell) rows ->
  Forall (fun row => length row <= length headers) rows ->
  exists out, build_pdf_table title headers rows = Ok out.
Proof.
  intros Ht Hh Hc Hrows. unfold build_pdf_table.
  rewrite build_table_lines_Ok by assumption. cbn [bind].
  apply render_pdf_total, latin1_paginate, latin1_table_items; [assumption|].
  apply latin1_table_lines; [assumption|]. now apply latin1_split_rows.
Qed.

(** A row with more cells than there are headers makes [_column_widths]
    read a width that does not exist: the export raises [IndexError]. *)
Lemma build_pdf_table_index_error title headers (rows : list (list cell)) :
  Exists (fun row => length headers < length row) rows ->
  build_pdf_table title headers rows = Raise IndexError.
Proof.
  intros Hex. unfold build_pdf_table.
  now rewrite build_table_lines_raises.
Qed.

(* ================================================================== *)
(** ** Escaping *)
(* ================================================================== *)

Lemma replace_char_flat_map old new (f : char -> str) s :
  replace_char old new (flat_map f s)
  = flat_map (fun c => replace_char old new (f c)) s.
Proof.
  unfold replace_char. induction s as [|c s IH]; [reflexivity|].
  cbn [flat_map]. now rewrite flat_map_app, IH.
Qed.

Lemma escape_one c : _escape [c] = escape_char c.
Proof.
  unfold _escape, escape_char, replace_char, backslash, lparen, rparen.
  cbn [flat_map app].
  destruct (N.eqb_spec c 92) as [->|H1]; [reflexivity|].
  cbn [flat_map app].
  destruct (N.eqb_spec c 40) as [->|H2]; [reflexivity|].
  cbn [flat_map app].
  destruct (N.eqb_spec c 41) as [->|H3]; reflexivity.
Qed.

Lemma escape_flat_map v : _escape v = flat_map escape_char v.
Proof.
  induction v as [|c v IH]; [reflexivity|].
  cbn [flat_map]. rewrite <- IH, <- escape_one.
  unfold _escape, replace_char. now rewrite <- !flat_map_app.
Qed.

(* ================================================================== *)
(** ** Digits, and the text of the objects *)
(* ================================================================== *)

Lemma str_of_nat_value n : decimal_value (str_of_nat n) = N.of_nat n.
Proof. apply digits_value, str_of_N_fuel. Qed.

Lemma decimal_value_lt d :
  Forall digit d -> (decimal_value d < 10 ^ N.of_nat (length d))%N.
Proof.
  induction d as [|c d IH] using rev_ind; intros H.
  - cbn. lia.
  - apply Forall_app in H. destruct H as (Hd & Hc).
    inversion Hc as [|? ? Hc' _]; subst. unfold digit in Hc'.
    specialize (IH Hd). rewrite decimal_value_snoc, length_app. cbn [length].
    rewrite Nat.add_1_r, Nat2N.inj_succ, N.pow_succ_r'. lia.
Qed.

Lemma digits_digit fuel : forall n, Forall digit (digits fuel n).
Proof.
  induction fuel as [|f IH]; intros n; cbn [digits]; [constructor|].
  destruct (N.ltb_spec n 10) as [Hlt|Hge].
  - constructor; [unfold digit; lia | constructor].
  - apply Forall_app. split; [apply IH|].
    constructor; [|constructor]. unfold digit.
    assert (n mod 10 < 10)%N by (apply N.mod_lt; discriminate). set (m := (n mod 10)%N) in *. clearbody m. lia.
Qed.

Lemma zfill10_digit n : Forall digit (zfill10 n).
Proof.
  unfold zfill10. apply Forall_app. split.
  - apply Forall_forall. intros c Hc. apply repeat_spec in Hc. subst c.
    unfold digit. lia.
  - apply digits_digit.
Qed.

Lemma ends_nl_keep s t :
  t <> [] /\ ends_nl t = false -> s ++ t <> [] /\ ends_nl (s ++ t) = false.
Proof.
  intros (Hne & He). split.
  - destruct s; [exact Hne | discriminate].
  - unfold ends_nl in *. rewrite rev_app_distr.
    destruct (rev t) as [|c r] eqn:E; [|exact He].
    exfalso. apply Hne. apply (f_equal (@rev _)) in E.
    now rewrite rev_involutive in E.
Qed.

Lemma ends_nl_plain (t : list N) : t <> [] /\ ends_nl t = false -> ends_nl t = false.
Proof. now intros (_ & H). Qed.

Ltac ends_plain :=
  apply ends_nl_plain; repeat (apply ends_nl_keep);
  split; [discriminate | reflexivity].

Lemma content_body_plain stream : ends_nl (content_body stream) = false.
Proof. unfold content_body. ends_plain. Qed.

Lemma page_body_plain a b c : ends_nl (page_body a b c) = false.
Proof. unfold page_body. ends_plain. Qed.

Lemma pages_body_plain n kids : ends_nl (pages_body n kids) = false.
Proof. unfold pages_body. ends_plain. Qed.

Lemma catalog_body_plain n : ends_nl (catalog_body n) = false.
Proof. unfold catalog_body. ends_plain. Qed.

Lemma obj_text_plain i b :
  ends_nl b = false ->
  obj_text (i, Some b)
  = str_of_nat i ++ lit " 0 obj" ++ nl ++ b ++ nl ++ lit "endobj" ++ nl.
Proof.
  intros Hb. unfold obj_text, obj_header. cbn [fst snd or_empty]. rewrite Hb.
  rewrite <- !app_assoc. reflexivity.
Qed.

Lemma page_body_text parent content :
  page_body parent content 1
  = lit "<< /Type /Page /Parent " ++ str_of_nat parent
      ++ lit " 0 R /MediaBox [0 0 612 792] /Contents " ++ str_of_nat content
      ++ lit " 0 R /Resources << /Font << /F1 1 0 R >> >> >>".
Proof. reflexivity. Qed.

Lemma enumerate_app A (a b : list A) : forall s,
  enumerate s (a ++ b) = enumerate s a ++ enumerate (s + length a) b.
Proof.
  induction a as [|x a IH]; intros s; cbn [app enumerate length].
  - now rewrite Nat.add_0_r.
  - rewrite IH. do 3 f_equal. lia.
Qed.

Lemma filled_pages_text pid : forall pages k,
  concat (List.map obj_text
            (enumerate (2 * k + 2) (flat_map (filled_page pid) (enumerate k pages))))
  = concat
      (List.map
         (fun kp : nat * page =>
            (str_of_nat (2 * fst kp + 2) ++ lit " 0 obj" ++ nl
               ++ (lit "<< /Length "
                     ++ str_of_nat (length (_build_content_stream (snd kp)))
                     ++ lit " >>" ++ nl ++ lit "stream" ++ nl
                     ++ _build_content_stream (snd kp) ++ nl ++ lit "endstream")
               ++ nl ++ lit "endobj" ++ nl)
            ++ (str_of_nat (2 * fst kp + 3) ++ lit " 0 obj" ++ nl
                  ++ (lit "<< /Type /Page /Parent " ++ str_of_nat pid
                        ++ lit " 0 R /MediaBox [0 0 612 792] /Contents "
                        ++ str_of_nat (2 * fst kp + 2)
                        ++ lit " 0 R /Resources << /Font << /F1 1 0 R >> >> >>")
                  ++ nl ++ lit "endobj" ++ nl))
         (enumerate k pages)).
Proof.
  induction pages as [|pg pages IH]; intros k; [reflexivity|].
  cbn [enumerate flat_map filled_page app List.map concat fst snd].
  rewrite (@obj_text_plain _ _ (content_body_plain _)).
  rewrite (@obj_text_plain _ _ (page_body_plain _ _ _)).
  replace (S (S (2 * k + 2))) with (2 * S k + 2) by lia.
  rewrite IH. replace (S (2 * k + 2)) with (2 * k + 3) by lia.
  rewrite page_body_text. unfold content_body. rewrite <- !app_assoc. reflexivity.
Qed.

(** The text of a rendered document, written out. *)
Lemma render_pdf_text pages out :
  render_pdf pages = Ok out ->
  let P := length pages in
  let obj := fun (i : nat) (b : str) =>
    str_of_nat i ++ lit " 0 obj" ++ nl ++ b ++ nl ++ lit "endobj" ++ nl in
  let font := lit "<< /Type /Font /Subtype /Type1 /BaseFont /Courier >>" in
  let content := fun pg : page =>
    lit "<< /Length " ++ str_of_nat (length (_build_content_stream pg))
      ++ lit " >>" ++ nl ++ lit "stream" ++ nl ++ _build_content_stream pg
      ++ nl ++ lit "endstream" in
  let page_dict := fun k : nat =>
    lit "<< /Type /Page /Parent " ++ str_of_nat (2 * P + 2)
      ++ lit " 0 R /MediaBox [0 0 612 792] /Contents " ++ str_of_nat (2 * k + 2)
      ++ lit " 0 R /Resources << /Font << /F1 1 0 R >> >> >>" in
  let tree :=
    lit "<< /Type /Pages /Count " ++ str_of_nat P ++ lit " /Kids ["
      ++ join (lit " ")
           (List.map (fun k => str_of_nat (2 * k + 3) ++ lit " 0 R") (seq 0 P))
      ++ lit "] >>" in
  let catalog := lit "<< /Type /Catalog /Pages " ++ str_of_nat (2 * P + 2) ++ lit " 0 R >>" in
  let body :=
    lit "%PDF-1.4" ++ nl
      ++ obj 1 font
      ++ concat (List.map (fun kp : nat * page =>
                             obj (2 * fst kp + 2) (content (snd kp))
                               ++ obj (2 * fst kp + 3) (page_dict (fst kp)))
                   (enumerate 0 pages))
      ++ obj (2 * P + 2) tree
      ++ obj (2 * P + 3) catalog in
  body = decode_latin1 pdf_header
           ++ concat (List.map obj_text (enumerate 1 (tl (object_table pages))))
  /\ decode_latin1 out
     = body
         ++ (lit "xref" ++ nl ++ lit "0 " ++ str_of_nat (2 * P + 4) ++ nl)
         ++ (lit "0000000000 65535 f " ++ nl)
         ++ concat (List.map (fun off => zfill10 off ++ lit " 00000 n " ++ nl)
                      (offsets_from 9 (enumerate 1 (tl (object_table pages)))))
         ++ (lit "trailer" ++ nl ++ lit "<< /Size " ++ str_of_nat (2 * P + 4)
               ++ lit " /Root " ++ str_of_nat (2 * P + 3) ++ lit " 0 R >>" ++ nl
               ++ lit "startxref" ++ nl ++ str_of_nat (length body) ++ nl
               ++ lit "%%EOF").
Proof.
  intros Hout P obj font content page_dict tree catalog body.
  assert (Hbody : body = decode_latin1 pdf_header
             ++ concat (List.map obj_text (enumerate 1 (tl (object_table pages))))).
  { unfold object_table. fold P. cbn [app tl enumerate List.map concat].
    rewrite enumerate_app, map_app, concat_app.
    pose proof (filled_pages_text (2 * P + 2) pages 0) as Hf.
    change (2 * 0 + 2) with 2 in Hf. rewrite Hf. clear Hf.
    rewrite length_filled, length_enumerate. fold P.
    cbn [enumerate List.map concat].
    rewrite (@obj_text_plain 1 font_body) by reflexivity.
    rewrite (@obj_text_plain _ _ (pages_body_plain _ _)).
    rewrite (@obj_text_plain _ _ (catalog_body_plain _)).
    replace (2 + 2 * P) with (2 * P + 2) by lia.
    replace (S (2 * P + 2)) with (2 * P + 3) by lia.
    unfold kids_text. rewrite map_map. cbn [page_ref fst].
    subst body obj font content page_dict tree catalog. cbv beta.
    unfold pages_body, catalog_body, font_body.
    rewrite app_nil_r, <- !app_assoc. reflexivity. }
  split; [exact Hbody|].
  apply render_pdf_Ok in Hout. rewrite Hout. unfold pdf_text.
  assert (Hlen : length (object_table pages) = 2 * P + 4).
  { unfold object_table. rewrite !length_app, length_filled, length_enumerate.
    cbn [length]. fold P. lia. }
  rewrite Hlen, <- Hbody. reflexivity.
Qed.

(* ================================================================== *)
(** ** Where the objects lie in the output *)
(* ================================================================== *)

Lemma build_pdf_bytes_layout objs cat out :
  _build_pdf_bytes objs cat = Ok out ->
  exists body offsets,
    for_each obj_step (enumerate 1 (tl objs)) (pdf_header, []) = Ok (body, offsets)
    /\ decode_latin1 body
       = decode_latin1 pdf_header
           ++ concat (List.map obj_text (enumerate 1 (tl objs)))
    /\ offsets = offsets_from 9 (enumerate 1 (tl objs))
    /\ decode_latin1 out
       = decode_latin1 body ++ xref_header (length objs)
           ++ decode_latin1 free_entry ++ concat (List.map xref_entry offsets)
           ++ trailer_text (length objs) cat (length body).
Proof.
  unfold _build_pdf_bytes. intros H.
  inv_bind H. destruct a as [body offsets]. exists body, offsets.
  split; [exact E|].
  apply obj_loop_Ok in E. destruct E as (Eb & Eo). cbn [app] in Eo.
  split; [exact Eb|]. split; [exact Eo|].
  inv_bind H. rename a into h. inv_bind H. rename a into out1.
  inv_bind H. rename a into t. inversion H; subst; clear H.
  apply xref_loop_Ok in E0. apply encode_decode in E, E1.
  rewrite decode_app, E0, !decode_app, E, E1. now rewrite <- !app_assoc.
Qed.

Lemma offsets_from_length l : forall pos, length (offsets_from pos l) = length l.
Proof. induction l as [|ic l IH]; intros pos; cbn [offsets_from length]; auto. Qed.

Lemma offsets_from_nth l : forall pos i off,
  nth_error (offsets_from pos l) i = Some off ->
  exists ic,
    nth_error l i = Some ic
    /\ off = pos + length (concat (List.map obj_text (firstn i l))).
Proof.
  induction l as [|ic l IH]; intros pos i off H.
  - destruct i; discriminate.
  - destruct i as [|i]; cbn [offsets_from nth_error] in H.
    + inversion H; subst. exists ic. split; [reflexivity|]. cbn. lia.
    + apply IH in H. destruct H as (ic' & Hn & ->). exists ic'.
      split; [exact Hn|]. cbn [firstn List.map concat]. rewrite length_app. lia.
Qed.

Lemma obj_text_split l : forall i ic,
  nth_error l i = Some ic ->
  concat (List.map obj_text l)
  = concat (List.map obj_text (firstn i l)) ++ obj_text ic
      ++ concat (List.map obj_text (skipn (S i) l)).
Proof.
  induction l as [|x l IH]; intros i ic H; [destruct i; discriminate|].
  destruct i as [|i]; cbn [nth_error] in H.
  - inversion H; subst. reflexivity.
  - cbn [firstn skipn List.map concat]. rewrite (IH i ic H) at 1.
    now rewrite <- app_assoc.
Qed.

Lemma enumerate_nth A (l : list A) : forall s i ic,
  nth_error (enumerate s l) i = Some ic -> fst ic = s + i.
Proof.
  induction l as [|a l IH]; intros s i ic H; [destruct i; discriminate|].
  destruct i as [|i]; cbn [enumerate nth_error] in H.
  - inversion H; subst. cbn. lia.
  - apply IH in H. lia.
Qed.

Lemma occurs_at_middle pre pat post :
  occurs_at pat (length pre) (pre ++ pat ++ post).
Proof.
  unfold occurs_at. rewrite skipn_app, skipn_all, Nat.sub_diag. cbn [app skipn].
  rewrite firstn_app, firstn_all, Nat.sub_diag. cbn [firstn]. apply app_nil_r.
Qed.

(** The object whose offset is the [i]-th recorded one begins there with its
    header [<i+1> 0 obj]. *)
Lemma object_occurs objs s rest i off :
  s = decode_latin1 pdf_header
        ++ concat (List.map obj_text (enumerate 1 (tl objs))) ++ rest ->
  nth_error (offsets_from 9 (enumerate 1 (tl objs))) i = Some off ->
  occurs_at (str_of_nat (S i) ++ lit " 0 obj") off s /\ off <= length s.
Proof.
  intros -> H. apply offsets_from_nth in H. destruct H as (ic & Hn & ->).
  pose proof (enumerate_nth _ _ _ Hn) as Hi.
  rewrite (obj_text_split _ _ Hn).
  set (A := concat (List.map obj_text (firstn i (enumerate 1 (tl objs))))).
  set (B := concat (List.map obj_text (skipn (S i) (enumerate 1 (tl objs))))).
  destruct ic as [index content]. cbn [fst] in Hi. subst index.
  unfold obj_text, obj_header. cbn [fst snd].
  replace (9 + length A) with (length (decode_latin1 pdf_header ++ A))
    by (rewrite length_app; reflexivity).
  split.
  - rewrite <- !app_assoc.
    rewrite (app_assoc (decode_latin1 pdf_header) A).
    rewrite (app_assoc (str_of_nat (1 + i)) (lit " 0 obj")).
    apply occurs_at_middle.
  - rewrite !length_app. lia.
Qed.

Lemma escape_length v : length v <= length (_escape v).
Proof.
  rewrite escape_flat_map. induction v as [|c v IH]; [reflexivity|].
  cbn [flat_map length]. rewrite length_app.
  assert (1 <= length (escape_char c)); [|lia].
  unfold escape_char.
  destruct (c =? backslash)%N; [cbn; lia|].
  destruct (c =? lparen)%N; [cbn; lia|].
  destruct (c =? rparen)%N; cbn; lia.
Qed.

Lemma long_text_breaks_xref (t : str) :
  latin1 t -> (10000000000 <= N.of_nat (length t))%N ->
  exists out,
    render_pdf [[(t, 10%Z)]] = Ok out /\ ~ xref_integrity [[(t, 10%Z)]] out.
Proof.
  intros Hlat Hlong.
  destruct (@render_pdf_total [[(t, 10%Z)]]) as (out & Hout).
  { repeat constructor. exact Hlat. }
  exists out. split; [exact Hout|].
  intros (objs & cat & body & offsets & entries & Hobjs & Hloop & _ & _ & _ & _ & _ & Hent).
  rewrite render_objects_eq in Hobjs. inversion Hobjs; subst objs cat; clear Hobjs.
  apply obj_loop_Ok in Hloop. destruct Hloop as (_ & Hoffs). cbn [app] in Hoffs.
  assert (Etl : tl (object_table [[(t, 10%Z)]])
                = [Some font_body;
                   Some (content_body (show_command t 10 742));
                   Some (page_body 4 2 1);
                   Some (pages_body 1 (kids_text [page_ref 0]));
                   Some (catalog_body 4)]) by reflexivity.
  rewrite Etl in Hoffs. cbn [enumerate offsets_from] in Hoffs.
  change (length pdf_header) with 9 in Hoffs.
  set (off := 9 + length (obj_text (1, Some font_body))
              + length (obj_text (2, Some (content_body (show_command t 10 742))))) in Hoffs.
  destruct (Hent 2 off) as (d & _ & _ & Hlen & Hdig & Hval & _);
    [rewrite Hoffs; reflexivity|].
  assert (Hoff : length t <= off).
  { unfold off, obj_text at 2. cbn [fst snd or_empty].
    unfold content_body, show_command. rewrite !length_app.
    pose proof (escape_length t). lia. }
  clearbody off.
  apply decimal_value_lt in Hdig. rewrite Hlen, Hval in Hdig.
  change (10 ^ N.of_nat 10)%N with 10000000000%N in Hdig. lia.
Qed.

Lemma filled_nth pid l : forall s k pg,
  nth_error l k = Some pg ->
  nth_error (flat_map (filled_page pid) (enumerate s l)) (2 * k)
  = Some (Some (content_body (_build_content_stream pg)))
  /\ nth_error (flat_map (filled_page pid) (enumerate s l)) (2 * k + 1)
     = Some (Some (page_body pid (2 * (s + k) + 2) 1)).
Proof.
  induction l as [|x l IH]; intros s k pg H; [destruct k; discriminate|].
  destruct k as [|k]; cbn [nth_error] in H.
  - inversion H; subst. rewrite Nat.add_0_r. split; reflexivity.
  - replace (2 * S k) with (S (S (2 * k))) by lia.
    replace (S (S (2 * k)) + 1) with (S (S (2 * k + 1))) by lia.
    cbn [enumerate flat_map filled_page app nth_error].
    replace (s + S k) with (S s + k) by lia. now apply IH.
Qed.

Lemma nth_error_skip2 A (a b : A) l n :
  nth_error (a :: b :: l) (n + 2) = nth_error l n.
Proof. rewrite Nat.add_comm. reflexivity. Qed.

(* ================================================================== *)
(** ** The claims *)
(* ================================================================== *)

(** C1, as the code has it.  For a document shorter than 10^10 bytes the
    cross-reference property holds: the entry of object [i] is ten decimal
    digits, [ 00000 n ] and a newline, twenty characters; the digits denote
    a position at which [<i> 0 obj] begins in the output; the free entry is
    [0000000000 65535 f \n]; and the number after [startxref] denotes the
    position at which [xref] begins. *)
Theorem C1_xref_integrity (pages : list page) (out : list byte)
        (Hout : render_pdf pages = Ok out)
        (Hsmall : (N.of_nat (length out) < 10000000000)%N) :
  xref_integrity pages out.
Proof.
  unfold render_pdf in Hout. rewrite render_objects_eq in Hout. cbn [bind] in Hout.
  apply build_pdf_bytes_layout in Hout.
  destruct Hout as (body & offsets & Hloop & Hbody & Hoffs & Hdec).
  exists (object_table pages), (2 * length pages + 3), body, offsets,
    (List.map (fun off => zfill10 off ++ lit " 00000 n " ++ nl) offsets).
  split; [apply render_objects_eq|]. split; [exact Hloop|].
  split; [exact Hdec|].
  split; [apply str_of_nat_value|].
  split.
  { rewrite Hdec. rewrite <- (decode_length body). unfold xref_header.
    rewrite <- !app_assoc. apply occurs_at_middle. }
  split.
  { rewrite Hoffs, offsets_from_length, length_enumerate.
    destruct (object_table pages); cbn [tl length]; lia. }
  split; [apply length_map|].
  intros i off Hnth. exists (zfill10 off).
  split.
  { exact (map_nth_error (fun off => zfill10 off ++ lit " 00000 n " ++ nl) i offsets Hnth). }
  rewrite Hoffs in Hnth.
  rewrite Hbody, <- app_assoc in Hdec.
  destruct (@object_occurs _ _ _ _ _ Hdec Hnth) as (Hocc & Hle).
  rewrite decode_length in Hle.
  assert (Hoff : (N.of_nat off < 10000000000)%N) by lia.
  split; [exact (@xref_entry_length off Hoff)|].
  split; [now apply zfill10_length|].
  split; [apply zfill10_digit|].
  split; [apply zfill10_value | exact Hocc].
Qed.

Lemma C1_xref_integrity_witness :
  exists out,
    render_pdf [[(lit "Rooms", 16%Z); ([], 12%Z)]; [(lit "p. 2", 10%Z)]] = Ok out
    /\ (N.of_nat (length out) < 10000000000)%N
    /\ xref_integrity [[(lit "Rooms", 16%Z); ([], 12%Z)]; [(lit "p. 2", 10%Z)]] out.
Proof.
  eexists. split; [vm_compute; reflexivity|].
  split; [vm_compute; reflexivity|].
  apply C1_xref_integrity; vm_compute; reflexivity.
Defined.

(** C1 as stated fails for a document of 10^10 bytes or more: the offset of
    the page dictionary has 11 digits and its entry is 21 bytes long. *)
Lemma C1_counterexample :
  exists out, render_pdf long_pages = Ok out /\ ~ xref_integrity long_pages out.
Proof.
  apply long_text_breaks_xref.
  - unfold long_text. now apply latin1_repeat.
  - unfold long_text. rewrite repeat_length, N2Nat.id. apply N.le_refl.
Qed.

(** C2.  The document made from [P] pages has the objects 1 to [2P+3] and
    no others, numbered in the order they were allocated: the font is object
    1, page [k] (counting from 0) has its content stream in object [2k+2]
    and its dictionary in object [2k+3], the page tree is object [2P+2] and
    the catalog object [2P+3].  The catalog's [/Pages] names the page tree;
    every page dictionary names the page tree as [/Parent], its content
    stream as [/Contents] and the font; the page tree has [/Count P] and
    lists the page dictionaries [3 0 R], [5 0 R], ... in page order as
    [/Kids]; the trailer has [/Size 2P+4] and [/Root 2P+3].  The output is
    the header line, these objects in order, each between [<id> 0 obj] and
    [endobj], one cross-reference section with [2P+4] entries, and the
    trailer. *)
Theorem C2_object_graph (pages : list page) (out : list byte)
        (Hout : render_pdf pages = Ok out) :
  let P := length pages in
  let obj := fun (i : nat) (b : str) =>
    str_of_nat i ++ lit " 0 obj" ++ nl ++ b ++ nl ++ lit "endobj" ++ nl in
  let font := lit "<< /Type /Font /Subtype /Type1 /BaseFont /Courier >>" in
  let content := fun pg : page =>
    lit "<< /Length " ++ str_of_nat (length (_build_content_stream pg))
      ++ lit " >>" ++ nl ++ lit "stream" ++ nl ++ _build_content_stream pg
      ++ nl ++ lit "endstream" in
  let page_dict := fun k : nat =>
    lit "<< /Type /Page /Parent " ++ str_of_nat (2 * P + 2)
      ++ lit " 0 R /MediaBox [0 0 612 792] /Contents " ++ str_of_nat (2 * k + 2)
      ++ lit " 0 R /Resources << /Font << /F1 1 0 R >> >> >>" in
  let tree :=
    lit "<< /Type /Pages /Count " ++ str_of_nat P ++ lit " /Kids ["
      ++ join (lit " ")
           (List.map (fun k => str_of_nat (2 * k + 3) ++ lit " 0 R") (seq 0 P))
      ++ lit "] >>" in
  let catalog := lit "<< /Type /Catalog /Pages " ++ str_of_nat (2 * P + 2) ++ lit " 0 R >>" in
  let body :=
    lit "%PDF-1.4" ++ nl
      ++ obj 1 font
      ++ concat (List.map (fun kp : nat * page =>
                             obj (2 * fst kp + 2) (content (snd kp))
                               ++ obj (2 * fst kp + 3) (page_dict (fst kp)))
                   (enumerate 0 pages))
      ++ obj (2 * P + 2) tree
      ++ obj (2 * P + 3) catalog in
  exists objs offsets,
    render_objects pages = Ok (objs, 2 * P + 3)
    /\ length objs = 2 * P + 4
    /\ nth_error objs 0 = Some None
    /\ nth_error objs 1 = Some (Some font)
    /\ (forall k pg,
          nth_error pages k = Some pg ->
          nth_error objs (2 * k + 2) = Some (Some (content pg))
          /\ nth_error objs (2 * k + 3) = Some (Some (page_dict k)))
    /\ nth_error objs (2 * P + 2) = Some (Some tree)
    /\ nth_error objs (2 * P + 3) = Some (Some catalog)
    /\ length offsets = 2 * P + 3
    /\ decode_latin1 out
       = body
           ++ (lit "xref" ++ nl ++ lit "0 " ++ str_of_nat (2 * P + 4) ++ nl)
           ++ (lit "0000000000 65535 f " ++ nl)
           ++ concat (List.map (fun off => zfill10 off ++ lit " 00000 n " ++ nl)
                        offsets)
           ++ (lit "trailer" ++ nl ++ lit "<< /Size " ++ str_of_nat (2 * P + 4)
                 ++ lit " /Root " ++ str_of_nat (2 * P + 3) ++ lit " 0 R >>" ++ nl
                 ++ lit "startxref" ++ nl ++ str_of_nat (length body) ++ nl
                 ++ lit "%%EOF").
Proof.
  intros P obj font content page_dict tree catalog body.
  exists (object_table pages),
    (offsets_from 9 (enumerate 1 (tl (object_table pages)))).
  assert (Hlen : length (object_table pages) = 2 * P + 4).
  { unfold object_table. rewrite !length_app, length_filled, length_enumerate.
    cbn [length]. fold P. lia. }
  assert (HF : length (flat_map (filled_page (2 * P + 2)) (enumerate 0 pages)) = 2 * P).
  { now rewrite length_filled, length_enumerate. }
  split; [apply render_objects_eq|]. split; [exact Hlen|].
  split; [reflexivity|]. split; [reflexivity|].
  split; [|split; [|split; [|split]]].
  - intros k pg Hk.
    assert (Hlt : k < P) by (apply nth_error_Some; rewrite Hk; discriminate).
    destruct (@filled_nth (2 * P + 2) pages 0 k pg Hk) as (H1 & H2).
    unfold object_table. fold P. cbn [app].
    replace (2 * k + 3) with (2 * k + 1 + 2) by lia.
    rewrite !nth_error_skip2, !nth_error_app1 by lia.
    split; [exact H1 | exact H2].
  - unfold object_table. fold P. cbn [app].
    rewrite nth_error_skip2, nth_error_app2 by lia.
    rewrite HF, Nat.sub_diag. cbn [nth_error].
    unfold kids_text. rewrite map_map. reflexivity.
  - unfold object_table. fold P. cbn [app].
    replace (2 * P + 3) with (2 * P + 1 + 2) by lia.
    rewrite nth_error_skip2, nth_error_app2 by lia.
    rewrite HF. replace (2 * P + 1 - 2 * P) with 1 by lia. reflexivity.
  - rewrite offsets_from_length, length_enumerate.
    destruct (object_table pages); cbn [tl length] in *; lia.
  - exact (proj2 (@render_pdf_text pages out Hout)).
Qed.

Lemma C2_object_graph_witness :
  exists out,
    render_pdf [[(lit "Rooms", 16%Z); ([], 12%Z)]; [(lit "p. 2", 10%Z)]] = Ok out
    /\ exists objs,
         render_objects [[(lit "Rooms", 16%Z); ([], 12%Z)]; [(lit "p. 2", 10%Z)]]
         = Ok (objs, 7)
         /\ length objs = 8
         /\ nth_error objs 6
            = Some (Some (lit "<< /Type /Pages /Count 2 /Kids [3 0 R 5 0 R] >>"))
         /\ nth_error objs 7 = Some (Some (lit "<< /Type /Catalog /Pages 6 0 R >>")).
Proof.
  eexists. split; [vm_compute; reflexivity|].
  destruct (@C2_object_graph
              [[(lit "Rooms", 16%Z); ([], 12%Z)]; [(lit "p. 2", 10%Z)]] _ eq_refl)
    as (objs & offsets & H1 & H2 & _ & _ & _ & H6 & H7 & _).
  exists objs. split; [exact H1|]. split; [exact H2|]. split; [exact H6 | exact H7].
Defined.

(** C3, as the code has it.  [render_pdf] synthesizes nothing: for an empty
    sequence of pages it builds three objects, and the page tree says
    [/Count 0] with no kids.  The single page holding one blank item of size
    10 is made by [_paginate] when it is given no items; [_paginate] never
    returns an empty list of pages nor an empty page, so the document that
    paginate-then-render produces from no items has exactly one page. *)
Theorem C3_blank_page_comes_from_paginate :
  render_objects []
  = Ok ([None; Some font_body; Some (pages_body 0 []); Some (catalog_body 2)], 3)
  /\ _paginate [] = [[([], 10%Z)]]
  /\ (forall items,
        _paginate items <> [] /\ Forall (fun pg => pg <> []) (_paginate items))
  /\ render_objects (_paginate [])
     = Ok ([None; Some font_body;
            Some (content_body (show_command [] 10 742));
            Some (page_body 4 2 1);
            Some (pages_body 1 (lit "3 0 R"));
            Some (catalog_body 4)], 5).
Proof.
  split; [reflexivity|]. split; [reflexivity|]. split; [|reflexivity].
  intros items. rewrite paginate_refines. destruct items as [|it items].
  - split; [discriminate|]. repeat constructor. discriminate.
  - unfold paginate_spec.
    assert (H : Forall (fun pg : page => pg <> [])
                  (greedy (PAGE_HEIGHT - 2 * MARGIN) [] 0 (it :: items))).
    { apply greedy_nonempty. right. discriminate. }
    split; [|exact H].
    intros E. pose proof (greedy_concat (PAGE_HEIGHT - 2 * MARGIN) (it :: items) [] 0) as C.
    rewrite E in C. discriminate.
Qed.

(** C3 as stated fails: given no pages, [render_pdf] does not return the
    document of a single blank page, and its page tree counts 0 pages. *)
Lemma C3_counterexample :
  render_pdf [] <> render_pdf [[([], 10%Z)]]
  /\ render_objects [] = Ok (object_table [], 3)
  /\ nth_error (object_table []) 2
     = Some (Some (lit "<< /Type /Pages /Count 0 /Kids [] >>")).
Proof.
  split; [|split; reflexivity].
  intros H.
  apply (f_equal (fun r => match r with Ok b => length b | Raise _ => 0 end)) in H.
  vm_compute in H. discriminate.
Qed.

(** C4, as the code has it.  When no row has more cells than there are
    headers, the lines of the table are the header line, the separator, and
    for each row its formatted lines followed by the separator.  A formatted
    line of a row holds one field per cell the row has, each as wide as its
    column, joined with [" | "]; columns the row lacks get no field and no
    joiner, and the line of a row with fewer cells than headers is shorter
    than the header line. *)
Theorem C4_ragged_rows_omit_missing_cells
        (headers : list str) (rows : list (list cell))
        (Hrows : Forall (fun row => length row <= length headers) rows) :
  let splits := split_rows rows in
  let widths := final_widths headers splits in
  let header_line := join (lit " | ") (pad_cells headers widths) in
  _column_widths headers splits = Ok widths
  /\ _format_row headers widths = Ok header_line
  /\ _build_table_lines headers rows
     = Ok ([header_line; _separator widths]
             ++ flat_map (fun segs => row_lines widths segs ++ [_separator widths])
                  splits
             ++ match splits with
                | [] => [_separator widths]
                | _ => []
                end)
  /\ forall row index,
       In row rows ->
       let cells := line_cells (List.map _split_cell row) index in
       let line := join (lit " | ") (pad_cells cells widths) in
       _format_row cells widths = Ok line
       /\ List.map (@length N) (pad_cells cells widths)
          = firstn (length row) widths
       /\ (length row < length headers -> length line < length header_line).
Proof.
  intros splits widths header_line.
  pose proof Hrows as Hsplits. apply split_rows_length in Hsplits.
  split; [now apply column_widths_Ok|].
  split; [apply format_row_Ok; unfold widths; now rewrite length_final_widths|].
  split; [now apply build_table_lines_Ok|].
  intros row index Hin cells line.
  assert (Hseg : In (List.map _split_cell row) splits).
  { unfold splits, split_rows. now apply in_map. }
  assert (Hlen : length row <= length headers).
  { rewrite Forall_forall in Hrows. now apply Hrows. }
  assert (Hcells : length cells = length row).
  { unfold cells. now rewrite length_line_cells, length_map. }
  assert (Hfit : fits cells widths).
  { apply line_cells_fit; [assumption | now rewrite length_map]. }
  assert (Hfields : List.map (@length N) (pad_cells cells widths)
                    = firstn (length row) widths).
  { rewrite <- Hcells. now apply pad_cells_fits. }
  split; [apply format_row_Ok; unfold widths; rewrite length_final_widths; lia|].
  split; [exact Hfields|].
  intros Hshort. unfold line, header_line. rewrite !join_length.
  rewrite Hfields.
  rewrite (pad_cells_fits headers widths (headers_fit headers splits)).
  rewrite !pad_cells_length
    by (unfold widths; rewrite length_final_widths; lia).
  rewrite Hcells.
  replace (firstn (length headers) widths) with widths
    by (symmetry; apply firstn_all2; unfold widths; rewrite length_final_widths; lia).
  change (length (lit " | ")) with 3.
  pose proof (list_sum_firstn_le (length row) widths) as Hsum.
  assert (Hw : 2 * length headers <= list_sum widths).
  { unfold widths, final_widths.
    assert (G : forall l, 2 * length l <= list_sum (List.map (fun w => w + 2) l)).
    { unfold list_sum. induction l as [|a l IH]; cbn [List.map fold_right length]; lia. }
    specialize (G (fold_left widen splits (List.map (@length N) headers))).
    rewrite fold_widen_length, length_map in G. exact G. }
  clear Hfields Hcells.
  destruct (length row) as [|k]; [change (list_sum (firstn 0 widths)) with 0; lia | lia].
Qed.

Lemma C4_ragged_rows_witness :
  Forall (fun row : list cell => length row <= length ab_headers) [[Some (lit "x")]]
  /\ _build_table_lines ab_headers [[Some (lit "x")]]
     = Ok [lit "A   | B  "; lit "----+----"; lit "x  "; lit "----+----"].
Proof.
  split; [repeat constructor|].
  destruct (@C4_ragged_rows_omit_missing_cells ab_headers [[Some (lit "x")]])
    as (_ & _ & H & _); [repeat constructor|].
  rewrite H. vm_compute. reflexivity.
Defined.

(** C4 as stated fails: the row has one cell for two headers, no field is
    written for the second column, and the body line is shorter than the
    header line. *)
Lemma C4_counterexample :
  _build_table_lines ab_headers [[Some (lit "x")]]
  = Ok [lit "A   | B  "; lit "----+----"; lit "x  "; lit "----+----"]
  /\ length (lit "x  ") <> length (lit "A   | B  ")
  /\ lit "x  " <> join (lit " | ") [ljust (lit "x") 3; ljust [] 3].
Proof.
  split; [vm_compute; reflexivity|]. split; vm_compute; discriminate.
Qed.

(** C5.  With the page height 792 and the margin 40 the usable height is
    712.  Thirty items of size 10 (any texts) make one page; sixty make two
    pages, the first holding items 1 to 50 and the second beginning with
    item 51.  In general [_paginate] is one left-to-right pass: each
    iteration closes the current page exactly when that page is not empty
    and [used + (size + 4) > usable], the closed pages are never revisited,
    and the result is the greedy pass written after the specification. *)
Theorem C5_paginate_greedy :
  usable_height = 712%Z
  /\ (forall texts : nat -> str,
        _paginate (List.map (fun i => (texts i, 10%Z)) (seq 0 30))
        = [List.map (fun i => (texts i, 10%Z)) (seq 0 30)])
  /\ (forall texts : nat -> str,
        _paginate (List.map (fun i => (texts i, 10%Z)) (seq 0 60))
        = [List.map (fun i => (texts i, 10%Z)) (seq 0 50);
           List.map (fun i => (texts i, 10%Z)) (seq 50 10)])
  /\ (forall pages current used text size,
        paginate_step (pages, current, used) (text, size)
        = if match current with
             | [] => false
             | _ => (used + (size + 4) >? usable_height)%Z
             end
          then (pages ++ [current], [(text, size)], (size + 4)%Z)
          else (pages, current ++ [(text, size)], (used + (size + 4))%Z))
  /\ (forall items,
        _paginate items
        = paginate_finish (fold_left paginate_step items ([], [], 0%Z)))
  /\ (forall items, _paginate items = paginate_spec 792 40 items)
  /\ (forall it items, concat (_paginate (it :: items)) = it :: items).
Proof.
  split; [reflexivity|]. split; [intros texts; reflexivity|].
  split; [intros texts; reflexivity|].
  split; [intros; apply paginate_step_eq|].
  split; [apply paginate_unfold|].
  split; [apply paginate_refines|].
  intros it items. rewrite paginate_refines. unfold paginate_spec.
  now rewrite greedy_concat.
Qed.

(** C6.  [_escape] is the composition of three replacements, backslash
    first, then the opening and then the closing parenthesis; in that order
    a backslash written for a parenthesis is never doubled, so the result is
    the one-pass escaping of each character.  The cell [Name (Jr.)\] becomes
    [Name \(Jr.\)\\], and that text stands between the parentheses of the
    text-show command of its line in the content stream of the table's
    page. *)
Theorem C6_escape_order :
  (forall v, _escape v
             = replace_char rparen [backslash; rparen]
                 (replace_char lparen [backslash; lparen]
                    (replace_char backslash [backslash; backslash] v)))
  /\ (forall v, _escape v = flat_map escape_char v)
  /\ _escape jr_cell = jr_escaped
  /\ (forall size y,
        show_command jr_cell size y
        = lit "BT /F1 " ++ str_of_Z size ++ lit " Tf 40 "
            ++ str_of_Z (Z.max y 40) ++ lit " Td (" ++ jr_escaped
            ++ lit ") Tj ET")
  /\ exists lines pg,
       _build_table_lines [lit "Name"] [[Some jr_cell]] = Ok lines
       /\ _paginate (table_items (lit "Callers") lines) = [pg]
       /\ occurs_at ([lparen] ++ jr_escaped ++ lit "  ) Tj ET") 184
            (_build_content_stream pg).
Proof.
  split; [reflexivity|]. split; [apply escape_flat_map|].
  split; [reflexivity|]. split; [reflexivity|].
  eexists. eexists. split; [vm_compute; reflexivity|].
  split; [vm_compute; reflexivity|]. vm_compute. reflexivity.
Qed.

(** C7, as the code has it.  For the headers [A], [B] and no rows each
    column is as wide as its header plus 2, [_build_table_lines] returns the
    header line and the separator twice, and the five render items of the
    table make one page, for every title.  When the title is latin-1 text,
    [build_pdf_table] returns the document written out here: the font, one
    content stream with the five lines, one page dictionary, the page tree
    with [/Count 1] and [/Kids [3 0 R]], the catalog, a cross-reference
    section of six entries and the trailer. *)
Theorem C7_empty_table (title : str) (Htitle : latin1 title) :
  let headers := [lit "A"; lit "B"] in
  let header_line := lit "A   | B  " in
  let separator := lit "----+----" in
  let pg : page :=
    [(title, 16%Z); ([], 12%Z); (header_line, 10%Z); (separator, 10%Z);
     (separator, 10%Z)] in
  let stream :=
    lit "BT /F1 16 Tf 40 736 Td (" ++ flat_map escape_char title ++ lit ") Tj ET" ++ nl
      ++ lit "BT /F1 12 Tf 40 720 Td () Tj ET" ++ nl
      ++ lit "BT /F1 10 Tf 40 706 Td (A   | B  ) Tj ET" ++ nl
      ++ lit "BT /F1 10 Tf 40 692 Td (----+----) Tj ET" ++ nl
      ++ lit "BT /F1 10 Tf 40 678 Td (----+----) Tj ET" in
  let body :=
    lit "%PDF-1.4" ++ nl
      ++ lit "1 0 obj" ++ nl
      ++ lit "<< /Type /Font /Subtype /Type1 /BaseFont /Courier >>" ++ nl
      ++ lit "endobj" ++ nl
      ++ lit "2 0 obj" ++ nl
      ++ lit "<< /Length " ++ str_of_nat (length stream) ++ lit " >>" ++ nl
      ++ lit "stream" ++ nl ++ stream ++ nl ++ lit "endstream" ++ nl
      ++ lit "endobj" ++ nl
      ++ lit "3 0 obj" ++ nl
      ++ lit "<< /Type /Page /Parent 4 0 R /MediaBox [0 0 612 792] /Contents 2 0 R /Resources << /Font << /F1 1 0 R >> >> >>" ++ nl
      ++ lit "endobj" ++ nl
      ++ lit "4 0 obj" ++ nl
      ++ lit "<< /Type /Pages /Count 1 /Kids [3 0 R] >>" ++ nl
      ++ lit "endobj" ++ nl
      ++ lit "5 0 obj" ++ nl
      ++ lit "<< /Type /Catalog /Pages 4 0 R >>" ++ nl
      ++ lit "endobj" ++ nl in
  _column_widths headers [] = Ok [length (lit "A") + 2; length (lit "B") + 2]
  /\ _build_table_lines headers [] = Ok [header_line; separator; separator]
  /\ _paginate pg = [pg]
  /\ exists out offsets,
       build_pdf_table title headers [] = Ok out
       /\ length offsets = 5
       /\ decode_latin1 out
          = body
              ++ lit "xref" ++ nl ++ lit "0 6" ++ nl
              ++ lit "0000000000 65535 f " ++ nl
              ++ concat (List.map (fun off => zfill10 off ++ lit " 00000 n " ++ nl)
                           offsets)
              ++ lit "trailer" ++ nl ++ lit "<< /Size 6 /Root 5 0 R >>" ++ nl
              ++ lit "startxref" ++ nl ++ str_of_nat (length body) ++ nl
              ++ lit "%%EOF".
Proof.
  intros headers header_line separator pg stream body.
  split; [reflexivity|]. split; [reflexivity|]. split; [reflexivity|].
  destruct (@build_pdf_table_total title headers []) as (out & Hout);
    [assumption | repeat constructor; apply latin1_lit | constructor | constructor |].
  exists out, (offsets_from 9 (enumerate 1 (tl (object_table [pg])))).
  split; [exact Hout|]. split; [reflexivity|].
  unfold build_pdf_table in Hout.
  change (_build_table_lines headers [])
    with (Ok (A:=list str) [header_line; separator; separator]) in Hout.
  cbn [bind] in Hout.
  change (render_pdf [pg] = Ok out) in Hout.
  assert (Hs : _build_content_stream pg = stream).
  { unfold _build_content_stream, pg. cbn [fold_left content_step snd app join].
    unfold show_command. rewrite !escape_flat_map, <- !app_assoc. reflexivity. }
  destruct (@render_pdf_text [pg] out Hout) as (_ & Hdec).
  cbn [length enumerate List.map concat fst snd] in Hdec.
  rewrite Hs in Hdec. rewrite Hdec. clear. subst body.
  rewrite <- !app_assoc. reflexivity.
Qed.

Lemma C7_empty_table_witness :
  latin1 (lit "Rooms")
  /\ exists out, build_pdf_table (lit "Rooms") [lit "A"; lit "B"] [] = Ok out.
Proof.
  split; [apply latin1_lit|].
  destruct (@C7_empty_table (lit "Rooms") (latin1_lit "Rooms"))
    as (_ & _ & _ & out & _ & H & _).
  exists out. exact H.
Defined.

(** C7 as stated fails for a title that has no latin-1 encoding: the lines
    and the page are made, but the encoder raises and no document is
    returned. *)
Lemma C7_counterexample :
  _build_table_lines [lit "A"; lit "B"] []
  = Ok [lit "A   | B  "; lit "----+----"; lit "----+----"]
  /\ build_pdf_table em_dash [lit "A"; lit "B"] [] = Raise UnicodeEncodeError
  /\ ~ exists out, build_pdf_table em_dash [lit "A"; lit "B"] [] = Ok out.
Proof.
  split; [reflexivity|].
  assert (H : build_pdf_table em_dash [lit "A"; lit "B"] [] = Raise UnicodeEncodeError)
    by (vm_compute; reflexivity).
  split; [exact H|]. intros (out & Hout). rewrite H in Hout. discriminate.
Qed.

(** C8, as the code has it.  [_format_row] left-justifies: each cell is
    followed by spaces up to the width of its column ([ljust]), and the
    fields are joined with [" | "].  For a table whose rows all have as many
    cells as there are headers, the width of column [j] is the longest of
    header [j] and of the wrapped parts of column [j], plus 2, and every
    line of the table other than the separator is a formatted row whose
    fields have exactly the widths of their columns. *)
Theorem C8_format_row_left_justifies
        (headers : list str) (rows : list (list cell))
        (Hrect : Forall (fun row => length row = length headers) rows) :
  let splits := split_rows rows in
  let widths := final_widths headers splits in
  (forall cells ws,
      length cells = length ws ->
      _format_row cells ws = Ok (join (lit " | ") (pad_cells cells ws))
      /\ length (pad_cells cells ws) = length cells)
  /\ (forall c w cs ws,
        pad_cells (c :: cs) (w :: ws)
        = (c ++ repeat space (w - length c)) :: pad_cells cs ws)
  /\ _column_widths headers splits = Ok widths
  /\ widths = List.map (column_width headers splits) (seq 0 (length headers))
  /\ exists lines,
       _build_table_lines headers rows = Ok lines
       /\ Forall (fun line =>
                    line = _separator widths
                    \/ exists cells,
                         length cells = length widths
                         /\ _format_row cells widths = Ok line
                         /\ List.map (@length N) (pad_cells cells widths) = widths)
            lines.
Proof.
  intros splits widths.
  assert (Hrows : Forall (fun row : list cell => length row <= length headers) rows).
  { eapply Forall_impl; [|exact Hrect]. cbn beta. intros row E. lia. }
  assert (Hw : length widths = length headers)
    by (unfold widths; apply length_final_widths).
  split.
  { intros cells ws E. split; [apply format_row_Ok | apply pad_cells_length]; lia. }
  split; [reflexivity|].
  split; [apply column_widths_Ok; now apply split_rows_length|].
  split; [apply final_widths_spec|].
  exists (table_lines headers splits). split; [now apply build_table_lines_Ok|].
  assert (Hrow : forall cells, length cells = length headers -> fits cells widths ->
            exists cells0, length cells0 = length widths
              /\ _format_row cells0 widths = Ok (join (lit " | ") (pad_cells cells widths))
              /\ List.map (@length N) (pad_cells cells0 widths) = widths).
  { intros cells E Hfit. exists cells. split; [lia|].
    split; [apply format_row_Ok; lia|].
    rewrite pad_cells_fits by assumption. apply firstn_all2. lia. }
  unfold table_lines. fold widths. cbn [app].
  constructor; [right; apply Hrow; [reflexivity | apply headers_fit]|].
  constructor; [now left|].
  apply Forall_app. split.
  - apply Forall_flat_map. apply Forall_forall. intros segs Hseg.
    assert (Hsegs : length segs = length headers).
    { unfold splits, split_rows in Hseg. apply in_map_iff in Hseg.
      destruct Hseg as (row & <- & Hin). rewrite length_map.
      rewrite Forall_forall in Hrect. now apply Hrect. }
    apply Forall_app. split; [|constructor; [now left | constructor]].
    unfold row_lines. apply Forall_map. apply Forall_forall. intros index _.
    right. apply Hrow; [now rewrite length_line_cells|].
    apply line_cells_fit; [assumption | lia].
  - destruct splits; constructor; [now left | constructor].
Qed.

Lemma C8_format_row_witness :
  Forall (fun row : list cell => length row = length id_name_headers) id_name_rows
  /\ _column_widths id_name_headers (split_rows id_name_rows)
     = Ok [length (lit "ID") + 2; length (lit "Bob and a very long name") + 2].
Proof.
  split; [repeat constructor|].
  destruct (@C8_format_row_left_justifies id_name_headers id_name_rows)
    as (_ & _ & H & _); [repeat constructor|].
  rewrite H. vm_compute. reflexivity.
Defined.

(** C8 as stated fails: padding on the left would give [  ID] for the
    header [ID] in a column of width 4; the code gives [ID  ]. *)
Lemma C8_counterexample :
  _format_row [lit "ID"] [4] = Ok (lit "ID  ")
  /\ _format_row [lit "ID"] [4] <> Ok (repeat space (4 - 2) ++ lit "ID").
Proof.
  split; [vm_compute; reflexivity|]. vm_compute. discriminate.
Qed.

(** C10, at the failing input.  The row has exactly as many cells as there
    are headers, yet the export raises: the em dash has no latin-1 byte. *)
Theorem C10_em_dash_raises :
  length events_row = length events_headers
  /\ build_pdf_table (lit "Events") events_headers [events_row]
     = Raise UnicodeEncodeError.
Proof. split; vm_compute; reflexivity. Qed.

(* ================================================================== *)
(** ** Further properties of the encoder *)
(* ================================================================== *)

Lemma latin1_decode (b : list byte) : latin1 (decode_latin1 b).
Proof.
  apply Forall_forall. intros c Hc. apply in_map_iff in Hc.
  destruct Hc as (x & <- & _). pose proof (Byte.to_N_bounded x). lia.
Qed.

Lemma latin1_concat (l : list str) : latin1 (concat l) <-> Forall latin1 l.
Proof.
  induction l as [|s l IH]; cbn [concat].
  - split; constructor.
  - rewrite latin1_app, IH. split.
    + intros [H1 H2]. now constructor.
    + intros H. inversion H; subst. now split.
Qed.

Lemma latin1_join_inv sep parts : latin1 (join sep parts) -> Forall latin1 parts.
Proof.
  induction parts as [|p parts IH]; intros H; [constructor|].
  destruct parts as [|q parts].
  - constructor; [exact H | constructor].
  - change (join sep (p :: q :: parts)) with (p ++ sep ++ join sep (q :: parts)) in H.
    apply latin1_app in H. destruct H as (Hp & H).
    apply latin1_app in H. destruct H as (_ & H). constructor; auto.
Qed.

Lemma escape_char_last c : In c (escape_char c).
Proof.
  unfold escape_char.
  destruct (N.eqb_spec c backslash) as [->|_]; [now left|].
  destruct (N.eqb_spec c lparen) as [->|_]; [right; now left|].
  destruct (N.eqb_spec c rparen) as [->|_]; [right; now left | now left].
Qed.

Lemma latin1_escape_inv v : latin1 (_escape v) -> latin1 v.
Proof.
  rewrite escape_flat_map. intros H. apply Forall_forall. intros c Hc.
  unfold latin1 in H. rewrite Forall_forall in H. apply H.
  apply in_flat_map. exists c. split; [exact Hc | apply escape_char_last].
Qed.

Lemma latin1_show_command_inv text size y :
  latin1 (show_command text size y) -> latin1 text.
Proof.
  unfold show_command. rewrite !latin1_app. intros H.
  apply latin1_escape_inv. tauto.
Qed.

Lemma content_loop_eq items : forall y commands,
  snd (fold_left content_step items (y, commands))
  = commands ++ commands_from y items.
Proof.
  induction items as [|[text size] items IH]; intros y commands.
  - cbn. now rewrite app_nil_r.
  - cbn [fold_left content_step commands_from]. rewrite IH.
    now rewrite <- app_assoc.
Qed.

Lemma content_stream_eq items :
  _build_content_stream items = join nl (commands_from 752 items).
Proof.
  unfold _build_content_stream. rewrite content_loop_eq. reflexivity.
Qed.

Lemma commands_from_latin1_inv items : forall y,
  Forall latin1 (commands_from y items) -> Forall latin1_item items.
Proof.
  induction items as [|[text size] items IH]; intros y H; [constructor|].
  cbn [commands_from] in H. inversion H; subst.
  constructor; [|eauto]. unfold latin1_item. cbn [fst].
  eapply latin1_show_command_inv; eassumption.
Qed.

Lemma latin1_content_stream_inv items :
  latin1 (_build_content_stream items) -> Forall latin1_item items.
Proof.
  rewrite content_stream_eq. intros H. apply latin1_join_inv in H.
  eapply commands_from_latin1_inv; eassumption.
Qed.

Lemma latin1_content_body_inv stream : latin1 (content_body stream) -> latin1 stream.
Proof. unfold content_body. rewrite !latin1_app. tauto. Qed.

Lemma latin1_obj_text_inv ic : latin1 (obj_text ic) -> latin1 (or_empty (snd ic)).
Proof. unfold obj_text. rewrite !latin1_app. tauto. Qed.

Lemma latin1_objects_inv l :
  latin1 (concat (List.map obj_text l)) -> Forall (fun ic => latin1_object (snd ic)) l.
Proof.
  intros H. apply latin1_concat in H. rewrite Forall_map in H.
  eapply Forall_impl; [|exact H]. apply latin1_obj_text_inv.
Qed.

Lemma enumerate_snd A (l : list A) : forall s, List.map snd (enumerate s l) = l.
Proof. induction l as [|a l IH]; intros s; cbn [enumerate List.map]; [|rewrite IH]; reflexivity. Qed.

Lemma build_pdf_bytes_latin1 objs cat out :
  _build_pdf_bytes objs cat = Ok out -> Forall latin1_object (tl objs).
Proof.
  intros H. apply build_pdf_bytes_Ok in H.
  pose proof (latin1_decode out) as L. rewrite H in L. unfold pdf_text in L.
  rewrite !latin1_app in L. destruct L as ((_ & L) & _).
  apply latin1_objects_inv in L.
  rewrite <- (enumerate_snd (tl objs) 1). rewrite Forall_map. exact L.
Qed.

Lemma filled_latin1_inv pid l :
  Forall latin1_object (flat_map (filled_page pid) l) ->
  Forall (fun kp => Forall latin1_item (snd kp)) l.
Proof.
  induction l as [|kp l IH]; intros H; [constructor|].
  cbn [flat_map filled_page] in H. cbn [app] in H.
  inversion H as [|? ? H1 H']; subst. inversion H' as [|? ? _ H'']; subst.
  constructor; [|auto].
  apply latin1_content_stream_inv, latin1_content_body_inv. exact H1.
Qed.

Lemma object_table_latin1_inv pages :
  Forall latin1_object (tl (object_table pages)) -> Forall (Forall latin1_item) pages.
Proof.
  unfold object_table. cbn [app tl]. intros H.
  inversion H as [|? ? _ H']; subst.
  apply Forall_app in H'. destruct H' as (H' & _).
  apply filled_latin1_inv in H'.
  rewrite <- (enumerate_snd pages 0). rewrite Forall_map. exact H'.
Qed.

(** X1.  [render_pdf] returns bytes exactly when every text on every page
    is latin-1; otherwise it raises [UnicodeEncodeError].  It never raises
    [IndexError]: every slot it fills was allocated before. *)
Theorem X1_render_pdf_outcome (pages : list page) :
  match render_pdf pages with
  | Ok _ => Forall (Forall latin1_item) pages
  | Raise e => e = UnicodeEncodeError /\ ~ Forall (Forall latin1_item) pages
  end.
Proof.
  destruct (render_pdf pages) as [out|e] eqn:E.
  - unfold render_pdf in E. rewrite render_objects_eq in E. cbn [bind] in E.
    apply build_pdf_bytes_latin1 in E. now apply object_table_latin1_inv.
  - split; [eapply render_pdf_raises; eassumption|].
    intros H. apply render_pdf_total in H. destruct H as (out & H). congruence.
Qed.

Lemma steps_app a b : steps (a ++ b) = (steps a + steps b)%Z.
Proof.
  unfold steps. induction a as [|it a IH]; cbn [app fold_right]; [lia|].
  rewrite IH. lia.
Qed.

Lemma steps_cons it l : steps (it :: l) = (snd it + 4 + steps l)%Z.
Proof. reflexivity. Qed.

Lemma steps_snoc l text size : steps (l ++ [(text, size)]) = (steps l + (size + 4))%Z.
Proof. rewrite steps_app. unfold steps. cbn. lia. Qed.

Lemma steps_single text size : steps [(text, size)] = (size + 4)%Z.
Proof. unfold steps. cbn. lia. Qed.

Lemma commands_from_length items : forall y,
  length (commands_from y items) = length items.
Proof.
  induction items as [|[text size] items IH]; intros y; cbn [commands_from length]; auto.
Qed.

Lemma commands_from_nth items : forall y i text size,
  nth_error items i = Some (text, size) ->
  nth_error (commands_from y items) i
  = Some (show_command text size (y - steps (firstn i items) - size)).
Proof.
  induction items as [|[t s] items IH]; intros y i text size H;
    [destruct i; discriminate|].
  destruct i as [|i]; cbn [nth_error] in H.
  - inversion H; subst. cbn [commands_from nth_error firstn].
    change (steps []) with 0%Z. do 3 f_equal. lia.
  - cbn [commands_from nth_error firstn]. rewrite (IH _ _ _ _ H).
    rewrite steps_cons. cbn [snd]. do 3 f_equal. lia.
Qed.

(** X2.  The content stream of a page is one text-show command per item, in
    order, joined by newlines.  The command of item [i] carries the item's
    size, the left margin 40 and the baseline: 752 less the heights (size
    plus 4) of the items before it, less its own size, and never below the
    bottom margin 40. *)
Theorem X2_content_stream_layout (items : page) (i : nat) (text : str) (size : Z)
        (Hi : nth_error items i = Some (text, size)) :
  _build_content_stream items = join nl (commands_from 752 items)
  /\ length (commands_from 752 items) = length items
  /\ nth_error (commands_from 752 items) i
     = Some (lit "BT /F1 " ++ str_of_Z size ++ lit " Tf 40 "
               ++ str_of_Z (Z.max (752 - steps (firstn i items) - size) 40)
               ++ lit " Td (" ++ _escape text ++ lit ") Tj ET").
Proof.
  split; [apply content_stream_eq|]. split; [apply commands_from_length|].
  rewrite (commands_from_nth _ _ _ Hi). reflexivity.
Qed.

Lemma X2_content_stream_layout_witness :
  nth_error [(lit "Rooms", 16%Z); ([], 12%Z); (lit "ID", 10%Z)] 2 = Some (lit "ID", 10%Z)
  /\ nth_error (commands_from 752 [(lit "Rooms", 16%Z); ([], 12%Z); (lit "ID", 10%Z)]) 2
     = Some (lit "BT /F1 10 Tf 40 706 Td (ID) Tj ET").
Proof.
  split; [reflexivity|].
  destruct (@X2_content_stream_layout
              [(lit "Rooms", 16%Z); ([], 12%Z); (lit "ID", 10%Z)] 2 (lit "ID") 10%Z eq_refl)
    as (_ & _ & H).
  rewrite H. reflexivity.
Defined.

(* ================================================================== *)
(** ** Further properties of pagination *)
(* ================================================================== *)

Lemma greedy_head usable items : forall current used,
  exists more others, greedy usable current used items = (current ++ more) :: others.
Proof.
  induction items as [|[text size] items IH]; intros current used; cbn [greedy].
  - exists [], []. now rewrite app_nil_r.
  - destruct (match current with [] => false | _ => (used + (size + 4) >? usable)%Z end).
    + exists [], (greedy usable [(text, size)] (size + 4) items). now rewrite app_nil_r.
    + destruct (IH (current ++ [(text, size)]) (used + (size + 4))%Z) as (more & others & E).
      exists ((text, size) :: more), others. rewrite E, <- app_assoc. reflexivity.
Qed.

Lemma greedy_fits items : forall current used,
  used = steps current -> (current = [] \/ page_fits current) ->
  Forall page_fits (greedy usable_height current used items).
Proof.
  induction items as [|[text size] items IH]; intros current used Hused Hfit;
    cbn [greedy].
  - constructor; [|constructor]. destruct Hfit as [->|H]; [|exact H].
    right. cbv. discriminate.
  - destruct current as [|c current].
    + apply IH; [|right; now left].
      subst used. cbn [app]. rewrite steps_single. change (steps []) with 0%Z. lia.
    + destruct (Z.gtb_spec (used + (size + 4)) usable_height) as [Hgt|Hle].
      * constructor; [destruct Hfit as [H|H]; [discriminate | exact H]|].
        apply IH; [now rewrite steps_single | right; now left].
      * apply IH; [rewrite steps_snoc; lia|].
        right. right. rewrite steps_snoc. lia.
Qed.

Lemma greedy_tight items : forall current used,
  used = steps current -> tight (greedy usable_height current used items).
Proof.
  induction items as [|[text size] items IH]; intros current used Hused;
    cbn [greedy].
  - exact I.
  - destruct current as [|c current].
    + apply IH. subst used. cbn [app]. rewrite steps_single.
      change (steps []) with 0%Z. lia.
    + destruct (Z.gtb_spec (used + (size + 4)) usable_height) as [Hgt|Hle].
      * specialize (IH [(text, size)] (size + 4)%Z).
        destruct (greedy_head usable_height items [(text, size)] (size + 4)%Z)
          as (more & others & E).
        rewrite E in *. cbn [app tight]. split.
        -- cbn [snd]. lia.
        -- apply IH. now rewrite steps_single.
      * apply IH. rewrite steps_snoc. lia.
Qed.

(** X3.  [_paginate] keeps the budget and is greedy.  Every page holds a
    single item or items whose heights (size plus 4) sum to at most the
    usable height 712; and wherever a page ends, the first item of the next
    page would not have fit on it. *)
Theorem X3_paginate_budget (items : list item) :
  Forall page_fits (_paginate items) /\ tight (_paginate items).
Proof.
  rewrite paginate_refines. destruct items as [|it items].
  - split; [repeat constructor | exact I].
  - unfold paginate_spec. split.
    + apply greedy_fits; [reflexivity | now left].
    + apply greedy_tight. reflexivity.
Qed.

Lemma paginate_pages_fit items : Forall page_fits (_paginate items).
Proof.
  rewrite paginate_refines. destruct items as [|it items].
  - repeat constructor.
  - unfold paginate_spec. apply greedy_fits; [reflexivity | now left].
Qed.

Lemma paginate_items items pg it :
  In pg (_paginate items) -> In it pg ->
  In it items \/ (items = [] /\ it = ([], 10%Z)).
Proof.
  rewrite paginate_refines. intros Hpg Hit. destruct items as [|x items].
  - right. split; [reflexivity|]. cbn in Hpg. destruct Hpg as [<-|[]].
    destruct Hit as [<-|[]]. reflexivity.
  - left. unfold paginate_spec in Hpg.
    pose proof (greedy_concat (PAGE_HEIGHT - 2 * MARGIN) (x :: items) [] 0%Z) as C.
    cbn [app] in C. rewrite <- C. apply in_concat. exists pg. split; assumption.
Qed.

Lemma steps_nonneg l :
  Forall (fun it : item => (0 <= snd it)%Z) l -> (0 <= steps l)%Z.
Proof.
  induction 1 as [|it l Hit _ IH]; [cbv; discriminate|].
  rewrite steps_cons. lia.
Qed.

Lemma nth_error_split_item (pg : page) i it :
  nth_error pg i = Some it -> pg = firstn i pg ++ it :: skipn (S i) pg.
Proof.
  revert i. induction pg as [|x pg IH]; intros i H; [destruct i; discriminate|].
  destruct i as [|i]; cbn [nth_error] in H.
  - inversion H; subst. reflexivity.
  - cbn [firstn skipn app]. f_equal. now apply IH.
Qed.

(** X4.  Pagination and the encoder agree.  When every item has a size
    between 0 and 708, each page that [_paginate] makes takes at most the
    usable height, and the baseline of each of its lines, as
    [_build_content_stream] computes it, is at least 44: the clamp to the
    bottom margin never acts, so no two lines of a page are drawn on the
    same baseline. *)
Theorem X4_no_line_reaches_the_margin
        (items : list item)
        (Hsizes : Forall (fun it : item => (0 <= snd it <= 708)%Z) items)
        (pg : page) (i : nat) (text : str) (size : Z)
        (Hpg : In pg (_paginate items))
        (Hi : nth_error pg i = Some (text, size)) :
  (steps pg <= usable_height)%Z
  /\ (44 <= 752 - steps (firstn i pg) - size)%Z
  /\ nth_error (commands_from 752 pg) i
     = Some (lit "BT /F1 " ++ str_of_Z size ++ lit " Tf 40 "
               ++ str_of_Z (752 - steps (firstn i pg) - size)
               ++ lit " Td (" ++ _escape text ++ lit ") Tj ET").
Proof.
  assert (Hin : Forall (fun it : item => (0 <= snd it <= 708)%Z) pg).
  { apply Forall_forall. intros it Hit.
    destruct (paginate_items items pg it Hpg Hit) as [H|[_ ->]].
    - rewrite Forall_forall in Hsizes. now apply Hsizes.
    - cbn. lia. }
  assert (Hfit : (steps pg <= usable_height)%Z).
  { pose proof (paginate_pages_fit items) as F. rewrite Forall_forall in F.
    destruct (F pg Hpg) as [H1|H]; [|exact H].
    destruct pg as [|it [|? ?]]; try discriminate.
    inversion Hin; subst. rewrite steps_cons. change (steps []) with 0%Z.
    unfold usable_height, PAGE_HEIGHT, MARGIN. lia. }
  assert (Hy : (44 <= 752 - steps (firstn i pg) - size)%Z).
  { pose proof (nth_error_split_item _ _ Hi) as E.
    rewrite E in Hfit, Hin. rewrite steps_app, steps_cons in Hfit. cbn [snd] in Hfit.
    apply Forall_app in Hin. destruct Hin as (_ & Hin). inversion Hin; subst.
    assert (0 <= steps (skipn (S i) pg))%Z.
    { apply steps_nonneg. eapply Forall_impl; [|eassumption]. cbn beta. intros; lia. }
    unfold usable_height, PAGE_HEIGHT, MARGIN in Hfit. lia. }
  split; [exact Hfit|]. split; [exact Hy|].
  rewrite (commands_from_nth _ _ _ Hi). unfold show_command, MARGIN.
  rewrite Z.max_l; [reflexivity|]. unfold item in *. lia.
Qed.

Lemma X4_no_line_reaches_the_margin_witness :
  Forall (fun it : item => (0 <= snd it <= 708)%Z) (table_items (lit "Rooms") ab_lines)
  /\ In (table_items (lit "Rooms") ab_lines) (_paginate (table_items (lit "Rooms") ab_lines))
  /\ nth_error (table_items (lit "Rooms") ab_lines) 4 = Some (lit "----+----", 10%Z)
  /\ nth_error (commands_from 752 (table_items (lit "Rooms") ab_lines)) 4
     = Some (lit "BT /F1 10 Tf 40 678 Td (----+----) Tj ET").
Proof.
  assert (H1 : Forall (fun it : item => (0 <= snd it <= 708)%Z)
                 (table_items (lit "Rooms") ab_lines))
    by (repeat constructor; cbn; lia).
  assert (H2 : In (table_items (lit "Rooms") ab_lines)
                 (_paginate (table_items (lit "Rooms") ab_lines)))
    by (left; reflexivity).
  split; [exact H1|]. split; [exact H2|]. split; [reflexivity|].
  destruct (@X4_no_line_reaches_the_margin _ H1 _ 4 (lit "----+----") 10%Z H2 eq_refl)
    as (_ & _ & H).
  rewrite H. reflexivity.
Defined.

Lemma chunks_fuel_irrel A n (l : list A) : forall f f',
  0 < n -> length l <= f -> length l <= f' ->
  chunks_fuel f n l = chunks_fuel f' n l.
Proof.
  remember (length l) as len eqn:Hlen. revert l Hlen.
  induction len as [len IH] using lt_wf_ind. intros l Hlen f f' Hn Hf Hf'.
  destruct l as [|x l].
  - destruct f, f'; reflexivity.
  - cbn [length] in Hlen. destruct f as [|f]; [lia|]. destruct f' as [|f']; [lia|].
    cbn [chunks_fuel]. f_equal.
    assert (Hs : length (skipn n (x :: l)) < len).
    { rewrite length_skipn. cbn [length]. lia. }
    apply (IH _ Hs _ eq_refl); lia.
Qed.

Lemma chunks_cons A n (x : A) l :
  0 < n ->
  chunks n (x :: l) = firstn n (x :: l) :: chunks n (skipn n (x :: l)).
Proof.
  intros Hn. unfold chunks. cbn [length chunks_fuel]. f_equal.
  apply chunks_fuel_irrel; [exact Hn | | lia].
  rewrite length_skipn. cbn [length]. lia.
Qed.

Lemma chunks_count A n (l : list A) :
  0 < n ->
  n * length (chunks n l) < length l + n /\ length l <= n * length (chunks n l).
Proof.
  intros Hn. remember (length l) as len eqn:Hlen. revert l Hlen.
  induction len as [len IH] using lt_wf_ind. intros l Hlen.
  destruct l as [|x l]; [cbn in *; subst; cbn; lia|].
  rewrite chunks_cons by assumption. cbn [length].
  assert (Hs : length (skipn n (x :: l)) < len).
  { rewrite length_skipn. subst len. cbn [length]. lia. }
  destruct (IH _ Hs _ eq_refl) as (H1 & H2).
  rewrite length_skipn in H1, H2. rewrite <- Hlen in H1, H2.
  rewrite Nat.mul_succ_r. clear IH Hs.
  destruct (Nat.le_gt_cases n len) as [Hle|Hgt]; [lia|].
  rewrite skipn_all2 by lia. change (length (chunks n (@nil A))) with 0.
  cbn [length] in Hlen. lia.
Qed.

Lemma greedy_uniform (L : list str) : forall (current : page) used,
  current <> [] -> length current <= 50 ->
  (14 * Z.of_nat (length current) <= used <= 14 * Z.of_nat (length current) + 8)%Z ->
  greedy 712 current used (List.map (fun line => (line, 10%Z)) L)
  = (current ++ firstn (50 - length current) (List.map (fun line => (line, 10%Z)) L))
      :: chunks 50 (skipn (50 - length current) (List.map (fun line => (line, 10%Z)) L)).
Proof.
  induction L as [|x L IH]; intros current used Hne Hlen Hused.
  - cbn [List.map greedy]. rewrite firstn_nil, skipn_nil, app_nil_r. reflexivity.
  - cbn [List.map greedy]. destruct current as [|c current]; [congruence|].
    cbn [length] in Hlen, Hused.
    destruct (Z.gtb_spec (used + (10 + 4)) 712) as [Hgt|Hle].
    + assert (E : length current = 49) by lia.
      cbn [length]. rewrite E. cbn [Nat.sub firstn skipn]. rewrite app_nil_r. f_equal.
      rewrite IH; [|discriminate | cbn; lia | cbn; lia].
      rewrite chunks_cons by lia. reflexivity.
    + assert (E : length current < 49) by lia.
      rewrite IH; [|discriminate | rewrite length_app; cbn [length]; lia
                   | rewrite length_app; cbn [length]; lia].
      rewrite length_app. cbn [length].
      replace (50 - S (length current)) with (S (50 - (S (length current) + 1))) by lia.
      cbn [firstn skipn]. rewrite <- app_assoc. reflexivity.
Qed.

(** X5.  A table export has fifty render items on every page but the last:
    the first page holds the title, the blank line and 48 lines of the
    table, every later page 50 lines, whatever the texts are.  The number of
    pages is the number of items, which is the number of lines plus 2,
    divided by fifty and rounded up. *)
Theorem X5_table_pages_hold_fifty (title : str) (lines : list str) :
  _paginate (table_items title lines) = chunks 50 (table_items title lines)
  /\ 50 * length (_paginate (table_items title lines)) < length lines + 2 + 50
  /\ length lines + 2 <= 50 * length (_paginate (table_items title lines)).
Proof.
  assert (E : _paginate (table_items title lines) = chunks 50 (table_items title lines)).
  { rewrite paginate_refines. unfold table_items, paginate_spec. cbn [app greedy].
    change (PAGE_HEIGHT - 2 * MARGIN)%Z with 712%Z.
    change (0 + (16 + 4) + (12 + 4) >? 712)%Z with false. cbv iota.
    rewrite greedy_uniform; [|discriminate | cbn; lia | cbn; lia].
    rewrite chunks_cons by lia. reflexivity. }
  split; [exact E|].
  assert (Hlen : length (table_items title lines) = length lines + 2).
  { unfold table_items. rewrite length_app, length_map. cbn [length]. lia. }
  destruct (@chunks_count _ 50 (table_items title lines)) as (H1 & H2); [lia|].
  rewrite Hlen, <- E in H1, H2. split; assumption.
Qed.

(* ================================================================== *)
(** ** Further properties of escaping *)
(* ================================================================== *)

Lemma unescape_escape_char c rest :
  unescape (escape_char c ++ rest) = c :: unescape rest.
Proof.
  unfold escape_char.
  destruct (N.eqb_spec c backslash) as [->|H1]; [reflexivity|].
  destruct (N.eqb_spec c lparen) as [->|H2]; [reflexivity|].
  destruct (N.eqb_spec c rparen) as [->|H3]; [reflexivity|].
  cbn [app unescape]. apply N.eqb_neq in H1. now rewrite H1.
Qed.

Lemma unescape_escape v : unescape (_escape v) = v.
Proof.
  rewrite escape_flat_map. induction v as [|c v IH]; [reflexivity|].
  cbn [flat_map]. rewrite unescape_escape_char, IH. reflexivity.
Qed.

Lemma escape_injective a b : _escape a = _escape b -> a = b.
Proof.
  intros H. rewrite <- (unescape_escape a), <- (unescape_escape b). now rewrite H.
Qed.

Lemma escape_length_le v : length (_escape v) <= 2 * length v.
Proof.
  rewrite escape_flat_map. induction v as [|c v IH]; [cbn; lia|].
  cbn [flat_map length]. rewrite length_app.
  assert (length (escape_char c) <= 2); [|lia].
  unfold escape_char.
  destruct (c =? backslash)%N; [cbn; lia|].
  destruct (c =? lparen)%N; [cbn; lia|].
  destruct (c =? rparen)%N; cbn; lia.
Qed.

(** X6.  Escaping loses nothing and at most doubles the text: reading
    every backslash of [_escape v] as "take the next character" gives [v]
    back, so two different texts never have the same escaped form, and the
    escaped text has between [len v] and [2 len v] characters. *)
Theorem X6_escape_round_trip (v : str) :
  unescape (_escape v) = v
  /\ length v <= length (_escape v) <= 2 * length v.
Proof.
  split; [apply unescape_escape|].
  split; [apply escape_length | apply escape_length_le].
Qed.

Lemma literal_end_escape_char c rest :
  literal_end 0 (escape_char c ++ rest)
  = option_map (fun n => length (escape_char c) + n) (literal_end 0 rest).
Proof.
  unfold escape_char.
  destruct (N.eqb_spec c backslash) as [->|H1];
    [cbn; destruct (literal_end 0 rest); reflexivity|].
  destruct (N.eqb_spec c lparen) as [->|H2];
    [cbn; destruct (literal_end 0 rest); reflexivity|].
  destruct (N.eqb_spec c rparen) as [->|H3];
    [cbn; destruct (literal_end 0 rest); reflexivity|].
  cbn [app literal_end length].
  apply N.eqb_neq in H1, H2, H3. rewrite H1, H2, H3.
  destruct (literal_end 0 rest); reflexivity.
Qed.

Lemma literal_end_escape v rest :
  literal_end 0 (_escape v ++ rparen :: rest) = Some (length (_escape v)).
Proof.
  rewrite escape_flat_map. induction v as [|c v IH]; [reflexivity|].
  cbn [flat_map]. rewrite <- app_assoc, literal_end_escape_char, IH.
  cbn [option_map]. now rewrite length_app.
Qed.

(** X7.  No text can end its own string.  In every text-show command the
    escaped text stands between the opening parenthesis and [) Tj ET], and a
    reader of PDF literal strings that starts after the opening parenthesis
    finds the end of the string exactly at the closing parenthesis the
    command writes, whatever parentheses and backslashes the text holds. *)
Theorem X7_text_cannot_close_its_string (text : str) (size y : Z) :
  show_command text size y
  = (lit "BT /F1 " ++ str_of_Z size ++ lit " Tf 40 " ++ str_of_Z (Z.max y 40)
       ++ lit " Td") ++ [space; lparen] ++ _escape text ++ rparen :: lit " Tj ET"
  /\ literal_end 0 (_escape text ++ rparen :: lit " Tj ET")
     = Some (length (_escape text)).
Proof.
  split; [|apply literal_end_escape].
  unfold show_command. rewrite <- !app_assoc. reflexivity.
Qed.

(* ================================================================== *)
(** ** Further properties of the table composer *)
(* ================================================================== *)

Lemma splitlines_from_Forall (Q : N -> Prop) s : forall cur,
  Forall Q cur -> (forall c, In c s -> is_linebreak c = false -> Q c) ->
  Forall (Forall Q) (splitlines_from cur s).
Proof.
  remember (length s) as n eqn:Hn.
  assert (Hle : length s <= n) by lia. clear Hn. revert s Hle.
  induction n as [|n IH]; intros s Hle cur Hcur Hs.
  - destruct s; [|cbn in Hle; lia]. cbn.
    destruct cur; constructor; [exact Hcur | constructor].
  - destruct s as [|c s]; cbn [splitlines_from].
    + destruct cur; constructor; [exact Hcur | constructor].
    + cbn [length] in Hle. destruct (is_linebreak c) eqn:Ec.
      * constructor; [exact Hcur|].
        destruct s as [|c' s'].
        -- constructor.
        -- cbn [length] in Hle.
           destruct ((c =? 13) && (c' =? 10))%N;
             apply IH; try constructor; try (cbn [length]; lia);
             intros x Hx; apply Hs; right; [right|]; exact Hx.
      * apply IH; [lia | | intros x Hx; apply Hs; now right].
        apply Forall_app. split; [assumption|].
        constructor; [|constructor]. apply Hs; [now left | exact Ec].
Qed.

Lemma Forall_lstrip (Q : N -> Prop) s : Forall Q s -> Forall Q (lstrip s).
Proof.
  induction 1 as [|c s Hc Hs IH]; cbn [lstrip]; [constructor|].
  destruct (is_space c); [exact IH | now constructor].
Qed.

Lemma Forall_strip (Q : N -> Prop) s : Forall Q s -> Forall Q (strip s).
Proof.
  intros H. unfold strip, rstrip.
  apply Forall_rev, Forall_lstrip, Forall_rev, Forall_lstrip, H.
Qed.

Lemma lstrip_head s :
  match lstrip s with
  | c :: _ => is_space c = false
  | [] => True
  end.
Proof.
  induction s as [|c s IH]; cbn [lstrip]; [exact I|].
  destruct (is_space c) eqn:E; [exact IH | exact E].
Qed.

Lemma lstrip_snoc_nonspace a c :
  is_space c = false -> exists a', lstrip (a ++ [c]) = a' ++ [c].
Proof.
  intros Hc. induction a as [|x a IH]; cbn [app lstrip].
  - rewrite Hc. now exists [].
  - destruct (is_space x); [exact IH | now exists (x :: a)].
Qed.

Lemma strip_head s :
  match strip s with
  | c :: _ => is_space c = false
  | [] => True
  end.
Proof.
  unfold strip, rstrip. pose proof (lstrip_head s) as H.
  destruct (lstrip s) as [|c t]; [exact I|].
  cbn [rev]. destruct (lstrip_snoc_nonspace (rev t) c H) as (a' & ->).
  rewrite rev_app_distr. cbn [rev app]. exact H.
Qed.

Lemma strip_last s :
  match rev (strip s) with
  | c :: _ => is_space c = false
  | [] => True
  end.
Proof.
  unfold strip, rstrip. rewrite rev_involutive. apply lstrip_head.
Qed.

Lemma strip_clean s :
  Forall (fun c => is_linebreak c = false) s -> clean_line (strip s) = true.
Proof.
  intros H. unfold clean_line.
  pose proof (strip_head s) as Hh. pose proof (strip_last s) as Hl.
  apply Forall_strip in H.
  rewrite !andb_true_iff. split; [split|].
  - apply forallb_forall. rewrite Forall_forall in H. intros c Hc.
    now rewrite (H c Hc).
  - destruct (strip s); [reflexivity | now rewrite Hh].
  - destruct (rev (strip s)); [reflexivity | now rewrite Hl].
Qed.

(** X8.  [_split_cell] always gives at least one part, and every part is a
    clean line: it holds none of the line boundaries of [str.splitlines]
    and neither begins nor ends with white space. *)
Theorem X8_split_cell_parts_are_clean (value : cell) :
  _split_cell value <> []
  /\ forallb clean_line (_split_cell value) = true.
Proof.
  split; [apply split_cell_nonempty|].
  unfold _split_cell.
  set (text := match value with Some s => s | None => [] end).
  assert (H : Forall (Forall (fun c => is_linebreak c = false)) (splitlines text)).
  { apply splitlines_from_Forall; [constructor | auto]. }
  destruct (splitlines text) as [|p ps].
  - reflexivity.
  - apply forallb_forall. intros x Hx. apply in_map_iff in Hx.
    destruct Hx as (part & <- & Hin). apply strip_clean.
    rewrite Forall_forall in H. now apply H.
Qed.

Lemma splitlines_from_no_break s : forall cur,
  forallb (fun c => negb (is_linebreak c)) s = true ->
  splitlines_from cur s = match cur ++ s with [] => [] | line => [line] end.
Proof.
  induction s as [|c s IH]; intros cur H; cbn [splitlines_from].
  - rewrite app_nil_r. now destruct cur.
  - cbn [forallb] in H. apply andb_true_iff in H. destruct H as (Hc & H).
    apply negb_true_iff in Hc. rewrite Hc, IH by assumption.
    now rewrite <- app_assoc.
Qed.

Lemma lstrip_id s :
  match s with c :: _ => negb (is_space c) | [] => true end = true -> lstrip s = s.
Proof.
  destruct s as [|c s]; [reflexivity|]. cbn [lstrip]. intros H.
  apply negb_true_iff in H. now rewrite H.
Qed.

(** X9.  A clean line passes through [_split_cell] unchanged: a text with
    no line boundary inside and no white space at either end, the empty text
    included, gives exactly one part, itself.  So splitting a part again
    changes nothing. *)
Theorem X9_split_cell_keeps_clean_lines (s : str) (Hclean : clean_line s = true) :
  _split_cell (Some s) = [s].
Proof.
  unfold clean_line in Hclean. rewrite !andb_true_iff in Hclean.
  destruct Hclean as ((Hb & Hh) & Hl).
  assert (Hstrip : strip s = s).
  { unfold strip, rstrip. rewrite (lstrip_id s Hh), (lstrip_id (rev s) Hl).
    apply rev_involutive. }
  unfold _split_cell, splitlines. rewrite splitlines_from_no_break by assumption.
  cbn [app]. destruct s as [|c s]; [reflexivity|].
  cbn [List.map]. now rewrite Hstrip.
Qed.

Lemma X9_split_cell_keeps_clean_lines_witness :
  clean_line (lit "Bob and a very long name") = true
  /\ _split_cell (Some (lit "Bob and a very long name"))
     = [lit "Bob and a very long name"].
Proof.
  split; [reflexivity|].
  apply X9_split_cell_keeps_clean_lines. reflexivity.
Defined.

(** X10.  [_format_row] raises [IndexError] exactly when it is given more
    cells than widths; otherwise it returns the cells, each left-justified
    to the width at its own position, joined with [" | "], and ignores the
    widths beyond the last cell. *)
Theorem X10_format_row_outcome (cells : list str) (widths : list nat) :
  _format_row cells widths
  = if length cells <=? length widths
    then Ok (join (lit " | ") (pad_cells cells widths))
    else Raise IndexError.
Proof.
  destruct (Nat.leb_spec (length cells) (length widths)) as [H|H].
  - now apply format_row_Ok.
  - now apply format_row_raises.
Qed.

(** X11.  [_build_table_lines] raises [IndexError] exactly when some row
    has more cells than there are headers, whatever the cells hold;
    otherwise it returns the header line, the separator, and for each row
    its lines followed by the separator (and one more separator when there
    are no rows). *)
Theorem X11_build_table_lines_outcome (headers : list str) (rows : list (list cell)) :
  _build_table_lines headers rows
  = if forallb (fun row => length row <=? length headers) rows
    then Ok (table_lines headers (split_rows rows))
    else Raise IndexError.
Proof.
  destruct (forallb (fun row => length row <=? length headers) rows) eqn:E.
  - apply build_table_lines_Ok. apply Forall_forall. intros row Hrow.
    rewrite forallb_forall in E. apply Nat.leb_le. now apply E.
  - apply build_table_lines_raises. apply Exists_exists.
    assert (H : exists row, In row rows /\ (length row <=? length headers) = false).
    { clear - E. induction rows as [|r rows IH]; [discriminate|].
      cbn [forallb] in E. apply andb_false_iff in E. destruct E as [E|E].
      - exists r. split; [now left | exact E].
      - destruct (IH E) as (row & Hin & Hrow). exists row. split; [now right | exact Hrow]. }
    destruct H as (row & Hin & Hrow). exists row. split; [exact Hin|].
    now apply Nat.leb_gt.
Qed.

Lemma separator_length widths :
  length (_separator widths) = list_sum widths + 3 * (length widths - 1).
Proof.
  unfold _separator. rewrite join_length, length_map, map_map.
  change (length (lit "-+-")) with 3. f_equal. f_equal.
  induction widths as [|w ws IH]; [reflexivity|].
  cbn [List.map]. now rewrite repeat_length, IH.
Qed.

Lemma row_line_length cells widths :
  fits cells widths -> length cells = length widths ->
  length (join (lit " | ") (pad_cells cells widths))
  = list_sum widths + 3 * (length widths - 1).
Proof.
  intros Hfit Hlen. rewrite join_length, pad_cells_fits by assumption.
  rewrite pad_cells_length by lia. rewrite Hlen, firstn_all.
  change (length (lit " | ")) with 3. reflexivity.
Qed.

(** X12.  A table whose rows all have as many cells as there are headers is
    aligned: all its lines, the header line, the lines of every row and
    every separator, have the same length, the sum of the column widths
    plus 3 for each gap between two columns. *)
Theorem X12_table_lines_are_aligned
        (headers : list str) (rows : list (list cell))
        (Hrect : Forall (fun row => length row = length headers) rows) :
  let widths := final_widths headers (split_rows rows) in
  exists lines,
    _build_table_lines headers rows = Ok lines
    /\ Forall (fun line => length line
                           = list_sum widths + 3 * (length headers - 1)) lines.
Proof.
  intros widths.
  assert (Hrows : Forall (fun row : list cell => length row <= length headers) rows).
  { eapply Forall_impl; [|exact Hrect]. cbn beta. intros row E. lia. }
  assert (Hw : length widths = length headers)
    by (unfold widths; apply length_final_widths).
  exists (table_lines headers (split_rows rows)).
  split; [now apply build_table_lines_Ok|].
  assert (Hsep : length (_separator widths)
                 = list_sum widths + 3 * (length headers - 1))
    by (rewrite separator_length, Hw; reflexivity).
  assert (Hrow : forall cells, length cells = length headers -> fits cells widths ->
            length (join (lit " | ") (pad_cells cells widths))
            = list_sum widths + 3 * (length headers - 1)).
  { intros cells E Hfit. rewrite row_line_length by (assumption || lia).
    now rewrite Hw. }
  unfold table_lines. fold widths. cbn [app].
  constructor; [apply Hrow; [reflexivity | apply headers_fit]|].
  constructor; [exact Hsep|].
  apply Forall_app. split.
  - apply Forall_flat_map. apply Forall_forall. intros segs Hseg.
    assert (Hsegs : length segs = length headers).
    { unfold split_rows in Hseg. apply in_map_iff in Hseg.
      destruct Hseg as (row & <- & Hin). rewrite length_map.
      rewrite Forall_forall in Hrect. now apply Hrect. }
    apply Forall_app. split; [|constructor; [exact Hsep | constructor]].
    unfold row_lines. apply Forall_map. apply Forall_forall. intros index _.
    apply Hrow; [now rewrite length_line_cells|].
    apply line_cells_fit; [assumption | lia].
  - destruct (split_rows rows); constructor; [exact Hsep | constructor].
Qed.

Lemma X12_table_lines_are_aligned_witness :
  Forall (fun row : list cell => length row = length id_name_headers) id_name_rows
  /\ exists lines,
       _build_table_lines id_name_headers id_name_rows = Ok lines
       /\ Forall (fun line => length line = 33) lines.
Proof.
  split; [repeat constructor|].
  destruct (@X12_table_lines_are_aligned id_name_headers id_name_rows)
    as (lines & H1 & H2); [repeat constructor|].
  exists lines. split; [exact H1 | exact H2].
Defined.

Lemma row_height_pos (row : list cell) : 1 <= row_height (List.map _split_cell row).
Proof.
  destruct row as [|c row]; [cbn; lia|].
  cbn [List.map row_height].
  pose proof (split_cell_nonempty c) as H.
  destruct (_split_cell c) as [|p ps]; [congruence|].
  unfold list_max. cbn [List.map fold_right length]. lia.
Qed.

Lemma length_row_lines widths segs : length (row_lines widths segs) = row_height segs.
Proof. unfold row_lines. now rewrite length_map, length_seq. Qed.

(** X13.  The number of lines of a table: the header line and the
    separator, then for each row as many lines as its tallest cell has
    parts, at least one, and one separator; a table without rows has one
    more separator. *)
Theorem X13_table_line_count
        (headers : list str) (rows : list (list cell))
        (Hrows : Forall (fun row => length row <= length headers) rows) :
  exists lines,
    _build_table_lines headers rows = Ok lines
    /\ length lines
       = 2 + list_sum (List.map (fun row => row_height (List.map _split_cell row) + 1) rows)
         + match rows with [] => 1 | _ => 0 end
    /\ Forall (fun row => 1 <= row_height (List.map _split_cell row)) rows.
Proof.
  exists (table_lines headers (split_rows rows)).
  split; [now apply build_table_lines_Ok|].
  split; [|apply Forall_forall; intros row _; apply row_height_pos].
  unfold table_lines. cbn [app length]. rewrite length_app.
  assert (E : forall (w : list nat) (sep : str) (rs : list (list cell)),
            length (flat_map (fun segs => row_lines w segs ++ [sep]) (split_rows rs))
            = list_sum (List.map (fun row => row_height (List.map _split_cell row) + 1) rs)).
  { intros w sep rs. unfold list_sum.
    induction rs as [|r rs IH]; [reflexivity|].
    cbn [split_rows List.map flat_map fold_right]. fold (split_rows rs).
    rewrite !length_app, length_row_lines, IH. cbn [length]. lia. }
  rewrite E. destruct rows; cbn [split_rows List.map length]; lia.
Qed.

Lemma X13_table_line_count_witness :
  Forall (fun row : list cell => length row <= length id_name_headers)
    [[Some (lit "1"); Some (lit "Ann" ++ nl ++ lit "Lee")]; [Some (lit "2")]]
  /\ exists lines,
       _build_table_lines id_name_headers
         [[Some (lit "1"); Some (lit "Ann" ++ nl ++ lit "Lee")]; [Some (lit "2")]]
       = Ok lines
       /\ length lines = 7.
Proof.
  split; [repeat constructor|].
  destruct (@X13_table_line_count id_name_headers
              [[Some (lit "1"); Some (lit "Ann" ++ nl ++ lit "Lee")]; [Some (lit "2")]])
    as (lines & H1 & H2 & _); [repeat constructor|].
  exists lines. split; [exact H1 | exact H2].
Defined.

(* ================================================================== *)
(** ** Further properties of serialization *)
(* ================================================================== *)

(** X14.  [_build_pdf_bytes] accepts any object table and any catalog id:
    it never looks at slot 0 and never checks that the catalog id names an
    object.  It returns bytes exactly when the bodies of the objects from
    slot 1 on are latin-1 (an empty slot counts as the empty body), and then
    the bytes read back as the header, the objects in order, the
    cross-reference section and the trailer; otherwise it raises
    [UnicodeEncodeError]. *)
Theorem X14_build_pdf_bytes_outcome (objs : objects) (catalog_id : nat) :
  match _build_pdf_bytes objs catalog_id with
  | Ok out =>
      Forall latin1_object (tl objs)
      /\ decode_latin1 out = pdf_text objs catalog_id
  | Raise e =>
      e = UnicodeEncodeError /\ ~ Forall latin1_object (tl objs)
  end.
Proof.
  destruct (_build_pdf_bytes objs catalog_id) as [out|e] eqn:E.
  - split; [eapply build_pdf_bytes_latin1; eassumption | now apply build_pdf_bytes_Ok].
  - split; [eapply build_pdf_bytes_raises; eassumption|].
    intros H. apply (@build_pdf_bytes_total objs catalog_id) in H.
    destruct H as (out & H). congruence.
Qed.

Lemma str_of_N_nonempty n : 1 <= length (str_of_N n).
Proof.
  unfold str_of_N. cbn [digits]. destruct (n <? 10)%N; [cbn; lia|].
  rewrite length_app. cbn [length]. lia.
Qed.

Lemma obj_text_length_ge ic : 16 <= length (obj_text ic).
Proof.
  unfold obj_text, obj_header. rewrite !length_app.
  pose proof (str_of_N_nonempty (N.of_nat (fst ic))) as Hd.
  change (length (lit " 0 obj")) with 6. change (length nl) with 1.
  change (length (decode_latin1 endobj)) with 7. unfold str_of_nat.
  assert (1 <= length (or_empty (snd ic))
               + length (if ends_nl (or_empty (snd ic)) then [] else nl)); [|lia].
  unfold ends_nl. destruct (or_empty (snd ic)) as [|c s] eqn:E.
  - cbn. lia.
  - cbn [length]. lia.
Qed.

Lemma offsets_from_next l : forall pos i a ic,
  nth_error (offsets_from pos l) i = Some a ->
  nth_error l i = Some ic ->
  match nth_error (offsets_from pos l) (S i) with
  | Some b => b
  | None => pos + length (concat (List.map obj_text l))
  end = a + length (obj_text ic).
Proof.
  induction l as [|x l IH]; intros pos i a ic Ha Hic; [destruct i; discriminate|].
  destruct i as [|i]; cbn [offsets_from nth_error] in Ha, Hic.
  - inversion Ha; subst. inversion Hic; subst.
    destruct l as [|y l]; cbn [offsets_from nth_error List.map concat].
    + rewrite app_nil_r. reflexivity.
    + reflexivity.
  - change (nth_error (offsets_from pos (x :: l)) (S (S i)))
      with (nth_error (offsets_from (pos + length (obj_text x)) l) (S i)).
    pose proof (IH _ _ _ _ Ha Hic) as E.
    destruct (nth_error (offsets_from (pos + length (obj_text x)) l) (S i));
      [exact E|].
    rewrite <- E. cbn [List.map concat]. rewrite length_app. lia.
Qed.

Lemma enumerate_nth_error A (l : list A) : forall s i c,
  nth_error l i = Some c -> nth_error (enumerate s l) i = Some (s + i, c).
Proof.
  induction l as [|a l IH]; intros s i c H; [destruct i; discriminate|].
  destruct i as [|i]; cbn [enumerate nth_error] in *.
  - inversion H; subst. now rewrite Nat.add_0_r.
  - rewrite (IH (S s) i c H). do 2 f_equal. lia.
Qed.

(** X15.  The objects tile the output.  The recorded offset of each object
    plus the length of its serialized text (its header line, its body ended
    by a newline, [endobj]) is the recorded offset of the next object, and
    for the last object the position of the cross-reference section; every
    object takes at least 16 bytes, so the offsets strictly increase. *)
Theorem X15_objects_tile_the_output
        (objs : objects) (catalog_id : nat) (out : list byte)
        (Hout : _build_pdf_bytes objs catalog_id = Ok out) :
  exists body offsets,
    for_each obj_step (enumerate 1 (tl objs)) (pdf_header, []) = Ok (body, offsets)
    /\ length offsets = length objs - 1
    /\ forall i a c,
         nth_error offsets i = Some a ->
         nth_error (tl objs) i = Some c ->
         match nth_error offsets (S i) with
         | Some b => b
         | None => length body
         end = a + length (obj_text (S i, c))
         /\ 16 <= length (obj_text (S i, c)).
Proof.
  apply build_pdf_bytes_layout in Hout.
  destruct Hout as (body & offsets & Hloop & Hbody & Hoffs & _).
  exists body, offsets. split; [exact Hloop|]. split.
  { rewrite Hoffs, offsets_from_length, length_enumerate.
    destruct objs; cbn [tl length]; lia. }
  intros i a c Ha Hc. split; [|apply obj_text_length_ge].
  subst offsets.
  pose proof (enumerate_nth_error (tl objs) 1 i Hc) as Hic. cbn [Nat.add] in Hic.
  rewrite <- (offsets_from_next _ _ _ Ha Hic).
  destruct (nth_error (offsets_from 9 (enumerate 1 (tl objs))) (S i)); [reflexivity|].
  rewrite <- (decode_length body), Hbody, length_app. reflexivity.
Qed.

Lemma X15_objects_tile_the_output_witness :
  exists out,
    _build_pdf_bytes [None; Some font_body; None; Some (lit "x" ++ nl)] 3 = Ok out
    /\ exists body offsets,
         for_each obj_step (enumerate 1 [Some font_body; None; Some (lit "x" ++ nl)])
           (pdf_header, []) = Ok (body, offsets)
         /\ length offsets = 3.
Proof.
  eexists. split; [vm_compute; reflexivity|].
  destruct (@X15_objects_tile_the_output
              [None; Some font_body; None; Some (lit "x" ++ nl)] 3 _ eq_refl)
    as (body & offsets & H1 & H2 & _).
  exists body, offsets. split; [exact H1 | exact H2].
Defined.

Lemma render_pdf_Ok_latin1 pages out :
  render_pdf pages = Ok out -> Forall (Forall latin1_item) pages.
Proof.
  unfold render_pdf. rewrite render_objects_eq. cbn [bind]. intros E.
  apply build_pdf_bytes_latin1 in E. now apply object_table_latin1_inv.
Qed.

Lemma object_table_content pages k pg :
  nth_error pages k = Some pg ->
  nth_error (object_table pages) (2 * k + 2)
  = Some (Some (content_body (_build_content_stream pg))).
Proof.
  intros Hk.
  assert (Hlt : k < length pages) by (apply nth_error_Some; rewrite Hk; discriminate).
  destruct (@filled_nth (2 * length pages + 2) pages 0 k pg Hk) as (H1 & _).
  unfold object_table. cbn [app].
  rewrite nth_error_skip2, nth_error_app1
    by (rewrite length_filled, length_enumerate; lia).
  exact H1.
Qed.

(** X16.  The [/Length] of every content stream is right.  In a document
    that [render_pdf] returns, the object of page [k]'s content stream is
    the dictionary [<< /Length n >>], the keyword [stream], the stream data
    and the keyword [endstream], each on its own line, and the decimal
    number [n] is the number of bytes of the stream data. *)
Theorem X16_stream_length_is_byte_count
        (pages : list page) (out : list byte) (k : nat) (pg : page)
        (Hout : render_pdf pages = Ok out)
        (Hk : nth_error pages k = Some pg) :
  exists data : list byte,
    encode_latin1 (_build_content_stream pg) = Ok data
    /\ render_objects pages = Ok (object_table pages, 2 * length pages + 3)
    /\ nth_error (object_table pages) (2 * k + 2)
       = Some (Some (lit "<< /Length " ++ str_of_nat (length data) ++ lit " >>" ++ nl
                       ++ lit "stream" ++ nl ++ decode_latin1 data ++ nl
                       ++ lit "endstream"))
    /\ decimal_value (str_of_nat (length data)) = N.of_nat (length data).
Proof.
  apply render_pdf_Ok_latin1 in Hout.
  assert (Hpg : Forall latin1_item pg).
  { rewrite Forall_forall in Hout. apply Hout. eapply nth_error_In; eassumption. }
  destruct (encode_total (latin1_content_stream Hpg)) as (data & Hdata).
  exists data. split; [exact Hdata|]. split; [apply render_objects_eq|].
  split; [|apply str_of_nat_value].
  rewrite (object_table_content _ _ Hk). unfold content_body.
  rewrite (encode_length _ Hdata), (encode_decode _ Hdata). reflexivity.
Qed.

Lemma X16_stream_length_is_byte_count_witness :
  exists out,
    render_pdf [[(lit "Rooms", 16%Z)]] = Ok out
    /\ nth_error [[(lit "Rooms", 16%Z)]] 0 = Some [(lit "Rooms", 16%Z)]
    /\ exists data : list byte,
         encode_latin1 (_build_content_stream [(lit "Rooms", 16%Z)]) = Ok data
         /\ length data = 36
         /\ nth_error (object_table [[(lit "Rooms", 16%Z)]]) 2
            = Some (Some (lit "<< /Length " ++ str_of_nat (length data) ++ lit " >>" ++ nl
                            ++ lit "stream" ++ nl ++ decode_latin1 data ++ nl
                            ++ lit "endstream")).
Proof.
  eexists. split; [vm_compute; reflexivity|]. split; [reflexivity|].
  destruct (@X16_stream_length_is_byte_count [[(lit "Rooms", 16%Z)]] _ 0
              [(lit "Rooms", 16%Z)] eq_refl eq_refl)
    as (data & H1 & _ & H3 & _).
  exists data. split; [exact H1|]. split; [|exact H3].
  vm_compute in H1. inversion H1. reflexivity.
Defined.

(* ================================================================== *)
(** ** Further properties of the whole export *)
(* ================================================================== *)

Lemma pad_cells_latin1_inv cells : forall widths,
  length cells <= length widths ->
  Forall latin1 (pad_cells cells widths) -> Forall latin1 cells.
Proof.
  induction cells as [|c cells IH]; intros [|w ws] Hlen H; try constructor;
    cbn [length] in Hlen; try lia.
  - cbn [pad_cells] in H. inversion H; subst.
    unfold ljust in *. match goal with X : latin1 (_ ++ _) |- _ => apply latin1_app in X; tauto end.
  - cbn [pad_cells] in H. inversion H; subst. apply (IH ws); [lia | assumption].
Qed.

Lemma row_line_latin1_inv cells widths :
  length cells <= length widths ->
  latin1 (join (lit " | ") (pad_cells cells widths)) -> Forall latin1 cells.
Proof.
  intros Hlen H. apply latin1_join_inv in H. eapply pad_cells_latin1_inv; eassumption.
Qed.

Lemma row_lines_latin1_inv widths segs :
  length segs <= length widths ->
  Forall latin1 (row_lines widths segs) -> Forall (Forall latin1) segs.
Proof.
  intros Hlen H. apply Forall_forall. intros parts Hparts.
  apply Forall_forall. intros part Hpart.
  destruct (In_nth _ _ [] Hpart) as (index & Hi & E).
  assert (Hh : index < row_height segs).
  { unfold row_height. destruct segs as [|s0 segs0] eqn:Es; [contradiction|].
    rewrite <- Es in *.
    assert (length parts <= list_max (List.map (@length (list N)) segs)); [|lia].
    apply list_max_In. now apply in_map. }
  unfold row_lines in H. rewrite Forall_map, Forall_forall in H.
  specialize (H index). 
  assert (Hin : In index (seq 0 (row_height segs))) by (apply in_seq; lia).
  apply H in Hin. apply row_line_latin1_inv in Hin;
    [|now rewrite length_line_cells].
  rewrite Forall_forall in Hin. apply Hin.
  unfold line_cells. apply in_map_iff. exists parts. split; [|exact Hparts].
  apply Nat.ltb_lt in Hi. now rewrite Hi.
Qed.

Lemma table_lines_latin1_inv headers splits :
  Forall (fun segs : list (list str) => length segs <= length headers) splits ->
  Forall latin1 (table_lines headers splits) ->
  Forall latin1 headers /\ Forall (Forall (Forall latin1)) splits.
Proof.
  intros Hlen H. unfold table_lines in H. cbn [app] in H.
  inversion H as [|? ? Hhead H1]; subst. inversion H1 as [|? ? _ H2]; subst.
  apply Forall_app in H2. destruct H2 as (H2 & _).
  split.
  - eapply row_line_latin1_inv; [|exact Hhead]. now rewrite length_final_widths.
  - rewrite Forall_flat_map in H2.
    apply Forall_forall. intros segs Hsegs.
    rewrite Forall_forall in H2, Hlen.
    specialize (H2 _ Hsegs). apply Forall_app in H2. destruct H2 as (H2 & _).
    eapply row_lines_latin1_inv; [|exact H2].
    rewrite length_final_widths. now apply Hlen.
Qed.

Lemma paginate_latin1_inv items :
  Forall (Forall latin1_item) (_paginate items) -> Forall latin1_item items.
Proof.
  rewrite paginate_refines. destruct items as [|it items]; [constructor|].
  unfold paginate_spec. intros H. apply Forall_concat in H.
  now rewrite greedy_concat in H.
Qed.

Lemma table_items_latin1_inv title lines :
  Forall latin1_item (table_items title lines) -> latin1 title /\ Forall latin1 lines.
Proof.
  unfold table_items. cbn [app]. intros H.
  inversion H as [|? ? Ht H1]; subst. inversion H1 as [|? ? _ H2]; subst.
  split; [exact Ht|]. now rewrite Forall_map in H2.
Qed.

Lemma rows_arity_cases (headers : list str) (rows : list (list cell)) :
  Forall (fun row => length row <= length headers) rows
  \/ Exists (fun row => length headers < length row) rows.
Proof.
  induction rows as [|r rows [IH|IH]].
  - left. constructor.
  - destruct (Nat.le_gt_cases (length r) (length headers)).
    + left. now constructor.
    + right. now left.
  - right. now right.
Qed.

(** X17.  What an export ends in, for every input.  [build_pdf_table]
    raises [IndexError] exactly when some row has more cells than there are
    headers, before any text is looked at.  Otherwise it returns bytes
    exactly when the title, the headers and the parts of the cells (the
    cells after splitting into lines and trimming) are latin-1, and raises
    [UnicodeEncodeError] when one of them is not. *)
Theorem X17_build_pdf_table_outcome
        (title : str) (headers : list str) (rows : list (list cell)) :
  let encodable :=
    latin1 title /\ Forall latin1 headers
    /\ Forall (Forall (Forall latin1)) (split_rows rows) in
  match build_pdf_table title headers rows with
  | Ok _ =>
      Forall (fun row => length row <= length headers) rows /\ encodable
  | Raise IndexError =>
      Exists (fun row => length headers < length row) rows
  | Raise UnicodeEncodeError =>
      Forall (fun row => length row <= length headers) rows /\ ~ encodable
  end.
Proof.
  intros encodable.
  destruct (rows_arity_cases headers rows) as [Hrows|Hlong].
  - pose proof Hrows as Hsplit. apply split_rows_length in Hsplit.
    unfold build_pdf_table. rewrite build_table_lines_Ok by assumption. cbn [bind].
    set (lines := table_lines headers (split_rows rows)).
    destruct (render_pdf (_paginate (table_items title lines))) as [out|e] eqn:E.
    + split; [exact Hrows|].
      apply render_pdf_Ok_latin1, paginate_latin1_inv, table_items_latin1_inv in E.
      destruct E as (Ht & Hl). apply table_lines_latin1_inv in Hl; [|assumption].
      unfold encodable. tauto.
    + apply render_pdf_raises in E as He. subst e. split; [exact Hrows|].
      intros (Ht & Hh & Hc).
      destruct (@render_pdf_total (_paginate (table_items title lines))) as (out & Hout).
      { apply latin1_paginate, latin1_table_items; [assumption|].
        now apply latin1_table_lines. }
      congruence.
  - rewrite build_pdf_table_index_error by assumption. exact Hlong.
Qed.

(* ================================================================== *)
(** ** From the records to the document *)
(* ================================================================== *)

Lemma rectangular_rows_fit t :
  rectangular t ->
  Forall (fun row : list cell => length row <= length (snd (fst t))) (snd t).
Proof.
  destruct t as [[title headers] rows]. cbn [rectangular fst snd]. intros H.
  eapply Forall_impl; [|exact H]. cbn beta. intros row E. lia.
Qed.

Lemma rectangular_no_index_error t :
  rectangular t -> ExportRows.export_pdf t <> Raise IndexError.
Proof.
  intros H. apply rectangular_rows_fit in H.
  destruct t as [[title headers] rows]. cbn [fst snd] in H.
  unfold ExportRows.export_pdf, build_pdf_table.
  rewrite build_table_lines_Ok by assumption. cbn [bind].
  intros E. apply render_pdf_raises in E. discriminate.
Qed.

(** A part that is not latin-1 makes the export raise, when no row is too
    long. *)
Lemma non_latin1_part_raises title headers (rows : list (list cell)) :
  Forall (fun row => length row <= length headers) rows ->
  ~ Forall (Forall (Forall latin1)) (split_rows rows) ->
  build_pdf_table title headers rows = Raise UnicodeEncodeError.
Proof.
  intros Hrows Hbad. pose proof Hrows as Hsplit. apply split_rows_length in Hsplit.
  unfold build_pdf_table. rewrite build_table_lines_Ok by assumption. cbn [bind].
  destruct (render_pdf (_paginate (table_items title
              (table_lines headers (split_rows rows))))) as [out|e] eqn:E.
  - exfalso. apply Hbad.
    apply render_pdf_Ok_latin1, paginate_latin1_inv, table_items_latin1_inv in E.
    destruct E as (_ & Hl). apply table_lines_latin1_inv in Hl; [|assumption].
    tauto.
  - apply render_pdf_raises in E. now subst e.
Qed.

Lemma lstrip_keeps c s : In c s -> is_space c = false -> In c (lstrip s).
Proof.
  intros Hin Hc. induction s as [|x s IH]; [contradiction|].
  cbn [lstrip]. destruct (is_space x) eqn:Ex; [|exact Hin].
  destruct Hin as [->|Hin]; [congruence | now apply IH].
Qed.

Lemma strip_keeps c s : In c s -> is_space c = false -> In c (strip s).
Proof.
  intros Hin Hc. unfold strip, rstrip.
  apply in_rev. rewrite rev_involutive. apply lstrip_keeps; [|exact Hc].
  apply -> in_rev. now apply lstrip_keeps.
Qed.

Lemma splitlines_from_keeps c s : forall cur,
  In c (cur ++ s) -> is_linebreak c = false ->
  exists line, In line (splitlines_from cur s) /\ In c line.
Proof.
  remember (length s) as n eqn:Hn.
  assert (Hle : length s <= n) by lia. clear Hn. revert s Hle.
  induction n as [|n IH]; intros s Hle cur Hin Hc.
  - destruct s; [|cbn in Hle; lia]. rewrite app_nil_r in Hin. cbn.
    destruct cur; [contradiction|]. eexists. split; [now left | exact Hin].
  - destruct s as [|d s]; cbn [splitlines_from].
    + rewrite app_nil_r in Hin.
      destruct cur; [contradiction|]. eexists. split; [now left | exact Hin].
    + cbn [length] in Hle. destruct (is_linebreak d) eqn:Ed.
      * apply in_app_or in Hin. destruct Hin as [Hin|Hin].
        { exists cur. split; [now left | exact Hin]. }
        destruct Hin as [->|Hin]; [congruence|].
        assert (Hrest : forall s', length s' <= n -> In c s' ->
                  exists line, In line (splitlines_from [] s') /\ In c line).
        { intros s' Hs' Hin'. apply IH; [exact Hs' | exact Hin' | exact Hc]. }
        destruct s as [|d' s'].
        { contradiction. }
        cbn [length] in Hle.
        destruct ((d =? 13) && (d' =? 10))%N eqn:Ecr.
        -- apply andb_true_iff in Ecr. destruct Ecr as (_ & Ed').
           apply N.eqb_eq in Ed'. subst d'.
           destruct Hin as [<-|Hin]; [discriminate Hc|].
           destruct (Hrest s') as (line & Hl & Hcl); [lia | exact Hin |].
           exists line. split; [now right | exact Hcl].
        -- destruct (Hrest (d' :: s')) as (line & Hl & Hcl);
             [cbn [length]; lia | exact Hin |].
           exists line. split; [now right | exact Hcl].
      * apply IH; [lia | | exact Hc].
        rewrite <- app_assoc. exact Hin.
Qed.

Lemma split_cell_keeps c s :
  In c s -> is_linebreak c = false -> is_space c = false ->
  exists part, In part (_split_cell (Some s)) /\ In c part.
Proof.
  intros Hin Hb Hs.
  destruct (splitlines_from_keeps c s [] Hin Hb) as (line & Hl & Hcl).
  fold (splitlines s) in Hl. unfold _split_cell.
  destruct (splitlines s) as [|p ps] eqn:E; [contradiction|].
  exists (strip line). split; [now apply in_map | now apply strip_keeps].
Qed.

Lemma In_join c sep parts part :
  In part parts -> In c part -> In c (join sep parts).
Proof.
  intros Hp Hc. induction parts as [|p parts IH]; [contradiction|].
  destruct parts as [|q parts].
  - destruct Hp as [->|[]]. exact Hc.
  - change (join sep (p :: q :: parts)) with (p ++ sep ++ join sep (q :: parts)).
    destruct Hp as [->|Hp]; apply in_or_app; [now left|].
    right. apply in_or_app. right. now apply IH.
Qed.

Lemma lstrip_chars_keeps chars c s :
  In c s -> existsb (N.eqb c) chars = false -> In c (ExportRows.lstrip_chars chars s).
Proof.
  intros Hin Hc. induction s as [|x s IH]; [contradiction|].
  cbn [ExportRows.lstrip_chars]. destruct (existsb (N.eqb x) chars) eqn:Ex; [|exact Hin].
  destruct Hin as [->|Hin]; [congruence | now apply IH].
Qed.

Lemma strip_chars_keeps chars c s :
  In c s -> existsb (N.eqb c) chars = false -> In c (ExportRows.strip_chars chars s).
Proof.
  intros Hin Hc. unfold ExportRows.strip_chars.
  apply in_rev. rewrite rev_involutive. apply lstrip_chars_keeps; [|exact Hc].
  apply -> in_rev. now apply lstrip_chars_keeps.
Qed.

Lemma strip_chars_id chars x a y :
  existsb (N.eqb x) chars = false -> existsb (N.eqb y) chars = false ->
  ExportRows.strip_chars chars (x :: a ++ [y]) = x :: a ++ [y].
Proof.
  intros Hx Hy. unfold ExportRows.strip_chars.
  cbn [ExportRows.lstrip_chars]. rewrite Hx.
  change (x :: a ++ [y]) with ((x :: a) ++ [y]). rewrite rev_app_distr.
  cbn [rev app ExportRows.lstrip_chars]. rewrite Hy.
  change (y :: rev a ++ [x]) with ([y] ++ rev (x :: a)).
  rewrite rev_app_distr, rev_involutive. reflexivity.
Qed.

Lemma filter_truthy_In line lines :
  In (Some line) lines -> line <> [] -> In line (ExportRows.filter_truthy lines).
Proof.
  intros Hin Hne. induction lines as [|l lines IH]; [contradiction|].
  destruct Hin as [->|Hin].
  - destruct line; [congruence|]. now left.
  - destruct l as [[|c s]|]; cbn [ExportRows.filter_truthy]; auto. right. auto.
Qed.

Lemma not_latin1 c s : In c s -> (256 <= c)%N -> ~ latin1 s.
Proof.
  intros Hin Hc H. unfold latin1 in H. rewrite Forall_forall in H.
  specialize (H c Hin). cbv beta in H. lia.
Qed.

(** A cell that holds a character above 255 which is neither a line
    boundary nor white space: the export raises. *)
Lemma non_latin1_cell_raises title headers (rows : list (list cell)) row s c :
  Forall (fun row => length row <= length headers) rows ->
  In row rows -> In (Some s) row -> In c s ->
  is_linebreak c = false -> is_space c = false -> (256 <= c)%N ->
  build_pdf_table title headers rows = Raise UnicodeEncodeError.
Proof.
  intros Hrows Hrow Hcell Hc Hb Hs Hbig.
  apply non_latin1_part_raises; [assumption|]. intros H.
  destruct (split_cell_keeps c s Hc Hb Hs) as (part & Hpart & Hcp).
  unfold split_rows in H. rewrite Forall_map, Forall_forall in H.
  specialize (H row Hrow). rewrite Forall_map, Forall_forall in H.
  specialize (H (Some s) Hcell). rewrite Forall_forall in H.
  specialize (H part Hpart). exact (not_latin1 Hcp Hbig H).
Qed.

Section ExportProperties.

Import ExportRows.

Variable datetime : Type.
Variable str_of_datetime : datetime -> str.
Variable iso_minutes : str -> option str.

(** X18.  The rows always fit.  For each of the four views every row that
    [collect_table] builds has exactly as many cells as the view has
    headers, whatever the records hold, so the export of a view never raises
    [IndexError]. *)
Theorem X18_rows_fit_their_headers :
  (forall records,
      rectangular (collect_rooms str_of_datetime iso_minutes records)
      /\ export_pdf (collect_rooms str_of_datetime iso_minutes records)
         <> Raise IndexError)
  /\ (forall records,
        rectangular (collect_caller_cuers records)
        /\ export_pdf (collect_caller_cuers records) <> Raise IndexError)
  /\ (forall records rooms callers,
        rectangular (collect_events str_of_datetime iso_minutes records rooms callers)
        /\ export_pdf (collect_events str_of_datetime iso_minutes records rooms callers)
           <> Raise IndexError)
  /\ (forall records rooms callers,
        rectangular (collect_mcs str_of_datetime iso_minutes records rooms callers)
        /\ export_pdf (collect_mcs str_of_datetime iso_minutes records rooms callers)
           <> Raise IndexError).
Proof.
  assert (R1 : forall records,
             rectangular (collect_rooms str_of_datetime iso_minutes records)).
  { intros records. cbn [rectangular collect_rooms]. apply Forall_map.
    apply Forall_forall. intros item _. reflexivity. }
  assert (R2 : forall records, rectangular (collect_caller_cuers records)).
  { intros records. cbn [rectangular collect_caller_cuers]. apply Forall_map.
    apply Forall_forall. intros item _. reflexivity. }
  assert (R3 : forall records rooms callers,
             rectangular (collect_events str_of_datetime iso_minutes records rooms callers)).
  { intros records rooms callers. cbn [rectangular collect_events]. apply Forall_map.
    apply Forall_forall. intros item _. reflexivity. }
  assert (R4 : forall records rooms callers,
             rectangular (collect_mcs str_of_datetime iso_minutes records rooms callers)).
  { intros records rooms callers. cbn [rectangular collect_mcs]. apply Forall_map.
    apply Forall_forall. intros item _. reflexivity. }
  repeat split; auto using rectangular_no_index_error.
Qed.

(** X19.  One event without callers breaks the events export.  Its row
    holds the em dash in the callers column, which has no latin-1 byte: if
    the records of the events view include an event whose list of callers is
    empty, the export raises [UnicodeEncodeError], whatever else the records
    hold. *)
Theorem X19_event_without_callers_breaks_export
        (records : list (event_item datetime)) (rooms callers : Z -> option str)
        (Hevent : Exists (fun item => e_caller_cuer_ids item = []) records) :
  export_pdf (collect_events str_of_datetime iso_minutes records rooms callers)
  = Raise UnicodeEncodeError.
Proof.
  apply Exists_exists in Hevent. destruct Hevent as (item & Hin & Hnone).
  unfold export_pdf, collect_events.
  apply (@non_latin1_cell_raises _ _ _
           (event_row str_of_datetime iso_minutes item rooms callers) em_dash 8212%N).
  - apply Forall_map. apply Forall_forall. intros it _. cbn. lia.
  - apply in_map_iff. exists item. split; [reflexivity | exact Hin].
  - unfold event_row. rewrite Hnone. cbn [List.map]. right. right. now left.
  - now left.
  - reflexivity.
  - reflexivity.
  - cbv. discriminate.
Qed.

(** X20.  A timed description breaks the rooms export.  For a room that is
    not static, the line of a description whose start and end both format to
    a text (the start not beginning, the end not ending with a space or an
    en dash) joins the two with an en dash, which has no latin-1 byte: if
    the records of the rooms view include such a room, the export raises
    [UnicodeEncodeError]. *)
Theorem X20_timed_description_breaks_export
        (records : list (room_item datetime)) (item : room_item datetime)
        (desc : room_desc datetime) (x y : char) (a b : str)
        (Hitem : In item records)
        (Hstatic : r_static item = false)
        (Hdesc : In desc (r_descriptions item))
        (Hstart : format_datetime str_of_datetime iso_minutes (d_start_time desc) = x :: a)
        (Hend : format_datetime str_of_datetime iso_minutes (d_end_time desc) = b ++ [y])
        (Hx : existsb (N.eqb x) [space; en_dash] = false)
        (Hy : existsb (N.eqb y) [space; en_dash] = false) :
  In en_dash
     (format_description str_of_datetime iso_minutes
        (d_start_time desc) (d_end_time desc) (d_description desc))
  /\ export_pdf (collect_rooms str_of_datetime iso_minutes records)
     = Raise UnicodeEncodeError.
Proof.
  set (line := format_description str_of_datetime iso_minutes
                 (d_start_time desc) (d_end_time desc) (d_description desc)).
  assert (Hline : In en_dash line).
  { unfold line, format_description. rewrite Hstart, Hend. cbn [nonempty orb].
    apply strip_chars_keeps; [|reflexivity].
    apply in_or_app. left.
    replace ((x :: a) ++ [space; en_dash; space] ++ b ++ [y])
      with (x :: (a ++ [space; en_dash; space] ++ b) ++ [y])
      by (cbn [app]; rewrite <- !app_assoc; reflexivity).
    rewrite strip_chars_id by assumption.
    right. apply in_or_app. left. apply in_or_app. right. right. now left. }
  split; [exact Hline|].
  unfold export_pdf, collect_rooms.
  apply (@non_latin1_cell_raises _ _ _
           (room_row str_of_datetime iso_minutes item)
           (join nl (filter_truthy
                       (List.map (fun d => Some (format_description str_of_datetime
                                    iso_minutes (d_start_time d) (d_end_time d)
                                    (d_description d)))
                          (r_descriptions item))))
           en_dash).
  - apply Forall_map. apply Forall_forall. intros it _. cbn. lia.
  - apply in_map_iff. exists item. split; [reflexivity | exact Hitem].
  - unfold room_row. rewrite Hstatic. right. right. right. now left.
  - apply In_join with (part := line); [|exact Hline].
    apply filter_truthy_In.
    + apply in_map_iff. exists desc. split; [reflexivity | exact Hdesc].
    + intros E. rewrite E in Hline. contradiction.
  - reflexivity.
  - reflexivity.
  - cbv. discriminate.
Qed.

End ExportProperties.

Lemma X19_event_without_callers_breaks_export_witness :
  Exists (fun item : ExportRows.event_item unit => ExportRows.e_caller_cuer_ids item = [])
    [ExportRows.Build_event_item 1 2 [] (Some (ExportRows.TDatetime tt))
       (Some (ExportRows.TDatetime tt)) [lit "Plus"]]
  /\ ExportRows.export_pdf
       (ExportRows.collect_events (fun _ : unit => lit "2025-01-01 10:00:00+00:00")
          (fun _ => Some (lit "2025-01-01 10:00"))
          [ExportRows.Build_event_item 1 2 [] (Some (ExportRows.TDatetime tt))
             (Some (ExportRows.TDatetime tt)) [lit "Plus"]]
          (fun _ => Some (lit "Hall A")) (fun _ => None))
     = Raise UnicodeEncodeError.
Proof.
  assert (H : Exists (fun item : ExportRows.event_item unit =>
                        ExportRows.e_caller_cuer_ids item = [])
                [ExportRows.Build_event_item 1 2 [] (Some (ExportRows.TDatetime tt))
                   (Some (ExportRows.TDatetime tt)) [lit "Plus"]])
    by (left; reflexivity).
  split; [exact H|].
  apply X19_event_without_callers_breaks_export. exact H.
Defined.

Lemma X20_timed_description_breaks_export_witness :
  ExportRows.export_pdf
    (ExportRows.collect_rooms (fun _ : unit => lit "2025-01-01 10:00:00+00:00")
       (fun _ => Some (lit "2025-01-01 10:00"))
       [ExportRows.Build_room_item 7 (lit "Hall A") false
          [ExportRows.Build_room_desc (Some (lit "Plus"))
             (Some (ExportRows.TDatetime tt)) (Some (ExportRows.TDatetime tt))]])
  = Raise UnicodeEncodeError.
Proof.
  refine (proj2 (@X20_timed_description_breaks_export unit
            (fun _ => lit "2025-01-01 10:00:00+00:00")
            (fun _ => Some (lit "2025-01-01 10:00"))
            _ (ExportRows.Build_room_item 7 (lit "Hall A") false
                 [ExportRows.Build_room_desc (Some (lit "Plus"))
                    (Some (ExportRows.TDatetime tt)) (Some (ExportRows.TDatetime tt))])
            (ExportRows.Build_room_desc (Some (lit "Plus"))
               (Some (ExportRows.TDatetime tt)) (Some (ExportRows.TDatetime tt)))
            50%N 48%N (lit "025-01-01 10:00") (lit "2025-01-01 10:0")
            _ _ _ _ _ _ _));
    try reflexivity; now left.
Defined.

(** X21.  The callers view exports whenever its names can be encoded.  If
    the first name, the last name and every dance type of every caller are
    latin-1 text, the export of the callers view returns a document: the
    identifier, the Yes/No flag, the joined dance types, the headers and the
    title add nothing that cannot be encoded, and no row is too long. *)
Theorem X21_callers_export_returns (records : list ExportRows.caller_item)
        (Hnames : Forall (fun item => latin1 (ExportRows.c_first_name item)
                                      /\ latin1 (ExportRows.c_last_name item)
                                      /\ Forall latin1 (ExportRows.c_dance_types item))
                    records) :
  exists out, ExportRows.export_pdf (ExportRows.collect_caller_cuers records) = Ok out.
Proof.
  unfold ExportRows.export_pdf, ExportRows.collect_caller_cuers.
  apply build_pdf_table_total.
  - apply latin1_lit.
  - repeat (constructor; [apply latin1_lit|]). constructor.
  - apply Forall_map. eapply Forall_impl; [|exact Hnames].
    cbn beta. intros item (Hf & Hl & Hd). unfold ExportRows.caller_row.
    constructor; [apply latin1_str_of_Z|].
    constructor; [exact Hf|].
    constructor; [exact Hl|].
    constructor; [unfold ExportRows.yes_no; destruct (ExportRows.c_mc item); apply latin1_lit|].
    constructor; [|constructor].
    apply latin1_join; [apply latin1_lit | exact Hd].
  - apply Forall_map. apply Forall_forall. intros item _. cbn. lia.
Qed.

Lemma X21_callers_export_returns_witness :
  exists out,
    ExportRows.export_pdf
      (ExportRows.collect_caller_cuers
         [ExportRows.Build_caller_item 3 (lit "Ann") (lit "Lee") true
            [lit "Plus"; lit "A2"]])
    = Ok out.
Proof.
  apply X21_callers_export_returns.
  constructor; [|constructor].
  cbn [ExportRows.c_first_name ExportRows.c_last_name ExportRows.c_dance_types].
  split; [apply latin1_lit|]. split; [apply latin1_lit|].
  constructor; [apply latin1_lit|]. constructor; [apply latin1_lit|]. constructor.
Defined.
